(** * ThermoRover: drive mapping, odometry and the control loop

    A shallow embedding of the motion-control core of the rover firmware
    (fuzzy_control.c, encoder.c, motor_control.c and the tasks of main.c)
    together with the properties its specification states about it, and of
    the code around it: the callbacks of main.c, the client table of
    websocket_server.c and the connection retries of wifi_manager.c.

    Conventions of the embedding.
    - C integers are [Z] with the wrap-around of their width written out
      ([wrap16], [wrap32], [wrap64]).
    - A C [float] is modelled by the real number it stands for, and the
      arithmetic is exact unless stated.  Rounding to single precision is
      written [to_float]; it is applied where the code's behaviour hangs on
      it: in the loops of [normalize_angle], which do not end once the
      rounded sum is the angle again, and in the blend of
      [fuzzy_control_smooth].  An operation whose IEEE result is not a real
      number (a division by zero, the square root of a negative number), a
      conversion to an integer type that cannot hold the result and a loop
      that does not end are undefined: the functions that contain them
      return [option], with [None] for "no defined result".
    - Module-level C variables ([current_config], [left_encoder], ...)
      are threaded explicitly: a C function that mutates one takes the old
      value and returns the new one. *)

From Stdlib Require Import ZArith List Bool Reals Lra Lia Psatz.
From Stdlib Require Import Floats.SpecFloat.
From Stdlib Require String.
Import ListNotations.

(** ** Fixed-width integers *)

Module CInt.

Local Open Scope Z_scope.

Definition INT16_MIN : Z := -32768.
Definition INT16_MAX : Z := 32767.

Definition wrap (bits : Z) (z : Z) : Z :=
  (z + 2 ^ (bits - 1)) mod 2 ^ bits - 2 ^ (bits - 1).

Definition wrap16 : Z -> Z := wrap 16.
Definition wrap32 : Z -> Z := wrap 32.
Definition wrap64 : Z -> Z := wrap 64.

Definition in_int16 (z : Z) : Prop := INT16_MIN <= z <= INT16_MAX.

Definition in_int16b (z : Z) : bool := (INT16_MIN <=? z) && (z <=? INT16_MAX).

End CInt.

(** ** Floating-point values, idealised *)

Module CFloat.

Local Open Scope R_scope.

Definition float : Type := R.

(** The option monad carries "no defined result" through a computation. *)
Definition bind {A B : Type} (x : option A) (f : A -> option B) : option B :=
  match x with
  | Some a => f a
  | None => None
  end.

(** *** Rounding to single precision

    A binary32 number is an integer of at most 24 bits times a power of two
    from [2^-149] to [2^104]. *)

Definition pow2 (e : Z) : R :=
  if (0 <=? e)%Z then IZR (2 ^ e) else / IZR (2 ^ (- e)).

(** The exponent of the unit in the last place at [x]: the least [e] from
    -149 on with [|x| < 2^(e+24)]. *)
Fixpoint ulp_exponent_from (n : nat) (e : Z) (x : R) : Z :=
  match n with
  | O => e
  | S n' =>
      if Rlt_dec (Rabs x) (pow2 (e + 24)) then e
      else ulp_exponent_from n' (e + 1)%Z x
  end.

Definition ulp_exponent (x : R) : Z := ulp_exponent_from 253 (-149) x.

(** The nearest integer, the even one of two that are equally near. *)
Definition nearest_even (x : R) : Z :=
  let z := Int_part x in
  if Rlt_dec (x - IZR z) (1 / 2) then z
  else if Rgt_dec (x - IZR z) (1 / 2) then (z + 1)%Z
  else if Z.even z then z else (z + 1)%Z.

(** [x] rounded to the nearest binary32 number; not a real number when
    the rounded value overflows. *)
Definition to_float (x : R) : option float :=
  let e := ulp_exponent x in
  let r := IZR (nearest_even (x / pow2 e)) * pow2 e in
  if Rlt_dec (Rabs r) (pow2 128) then Some r else None.

(** *** Operations *)

(** [x / y]: not a real number when [y] is zero. *)
Definition fdiv (x y : float) : option float :=
  if Req_dec_T y 0 then None else Some (x / y).

(** [sqrtf x]: not a real number when [x] is negative. *)
Definition sqrtf (x : float) : option float :=
  if Rlt_dec x 0 then None else Some (sqrt x).

(** Truncation toward zero, the rounding of a C float-to-integer cast. *)
Definition trunc (x : float) : Z :=
  if Rle_dec 0 x then Int_part x else (- Int_part (- x))%Z.

(** [(int16_t) x]: undefined when the truncated value does not fit. *)
Definition cast_int16 (x : float) : option Z :=
  let z := trunc x in
  if CInt.in_int16b z then Some z else None.

End CFloat.

(** ** IEEE single precision, for cross-checking

    The exact arithmetic of a C [float] (24 bits of precision, exponents
    below 128), used only to check on concrete values what the real-number
    model calls undefined and what [to_float] rounds to. *)

Module Binary32.

Local Open Scope Z_scope.

Definition prec : Z := 24.
Definition emax : Z := 128.

Definition zero : spec_float := S754_zero false.
Definition one : spec_float := S754_finite false 8388608 (-23).
Definition two : spec_float := S754_finite false 8388608 (-22).

(** [apply_dead_zone] of fuzzy_control.c on single-precision values. *)
Definition apply_dead_zone (magnitude dead_zone : spec_float) : spec_float :=
  if SFltb magnitude dead_zone then zero
  else SFdiv prec emax (SFsub prec emax magnitude dead_zone)
                       (SFsub prec emax one dead_zone).

(** A finite value stored in a [float]. *)
Definition to_float (x : spec_float) : spec_float :=
  match x with
  | S754_finite s m e => binary_round prec emax s m e
  | _ => x
  end.

(** [2.0f * M_PI], a [double]. *)
Definition two_pi : spec_float := S754_finite false 7074237752028440 (-50).

(** The bodies of the two loops of [normalize_angle]: the sum is formed
    in double precision and stored in the [float]. *)
Definition wind_up_step (angle : spec_float) : spec_float :=
  to_float (SFadd 53 1024 angle two_pi).

Definition wind_down_step (angle : spec_float) : spec_float :=
  to_float (SFsub 53 1024 angle two_pi).

(** The blend of [fuzzy_control_smooth] for one side, before the cast. *)
Definition blend (alpha target current : spec_float) : spec_float :=
  SFadd prec emax (SFmul prec emax alpha target)
    (SFmul prec emax (SFsub prec emax one alpha) current).

End Binary32.

(** ** The Drive Mapper (fuzzy_control.c) *)

Module Fuzzy.

Import CInt CFloat.
Local Open Scope R_scope.

Notation "x <- e ;; k" := (bind e (fun x => k))
  (at level 61, e at next level, right associativity).

Inductive fuzzy_control_mode_t : Type :=
  | FUZZY_MODE_ARCADE
  | FUZZY_MODE_TANK
  | FUZZY_MODE_CAR
  | FUZZY_MODE_SMOOTH.

Inductive fuzzy_curve_type_t : Type :=
  | FUZZY_CURVE_LINEAR
  | FUZZY_CURVE_QUADRATIC
  | FUZZY_CURVE_CUBIC
  | FUZZY_CURVE_SQRT.

Record fuzzy_config_t : Type := {
  mode : fuzzy_control_mode_t;
  curve : fuzzy_curve_type_t;
  dead_zone : float;
  turn_factor : float;
  max_duty : Z;      (* int16_t *)
  min_duty : Z;      (* int16_t *)
  invert_left : bool;
  invert_right : bool
}.

Record motor_command_t : Type := {
  left_duty : Z;     (* int16_t *)
  right_duty : Z     (* int16_t *)
}.

(** Defaults of fuzzy_control.h. *)
Definition FUZZY_DEAD_ZONE : float := 0.08.
Definition FUZZY_MAX_DUTY : Z := 255.
Definition FUZZY_MIN_DUTY : Z := 35.
Definition FUZZY_TURN_FACTOR : float := 0.7.

Definition M_PI : float := PI.

(** *** Private helpers *)

Definition apply_dead_zone (magnitude dead_zone : float) : option float :=
  if Rlt_dec magnitude dead_zone then Some 0
  else fdiv (magnitude - dead_zone) (1 - dead_zone).

Definition apply_curve (magnitude : float) (curve : fuzzy_curve_type_t)
  : option float :=
  match curve with
  | FUZZY_CURVE_LINEAR => Some magnitude
  | FUZZY_CURVE_QUADRATIC => Some (magnitude * magnitude)
  | FUZZY_CURVE_CUBIC => Some (magnitude * magnitude * magnitude)
  | FUZZY_CURVE_SQRT => sqrtf magnitude
  end.

(** The loops of [normalize_angle] store the sum in a [float] at every
    turn: the sum with [2.0f * M_PI] is rounded to single precision
    (once, and with pi itself for the [double] next to it).  They are run
    for [turns angle] turns at most; [None] is a loop that does not end.
    The turns given are more than a loop that ends can take: up to [2^27]
    a turn moves the angle by more than 2 in spite of the rounding, and a
    [float] beyond [2^27] is what the rounded sum gives again, so that the
    loop does not end and any number of turns runs out. *)
Definition turns (angle : float) : nat :=
  S (S (Z.to_nat (up (Rabs angle / 2)))).

(** [while (angle < 0) angle += 2.0f * M_PI;] *)
Fixpoint wind_up (fuel : nat) (angle : float) : option float :=
  match fuel with
  | O => None
  | S fuel' =>
      if Rlt_dec angle 0 then
        angle <- to_float (angle + 2 * M_PI);;
        wind_up fuel' angle
      else Some angle
  end.

(** [while (angle >= 2.0f * M_PI) angle -= 2.0f * M_PI;] *)
Fixpoint wind_down (fuel : nat) (angle : float) : option float :=
  match fuel with
  | O => None
  | S fuel' =>
      if Rge_dec angle (2 * M_PI) then
        angle <- to_float (angle - 2 * M_PI);;
        wind_down fuel' angle
      else Some angle
  end.

Definition normalize_angle (angle : float) : option float :=
  angle <- wind_up (turns angle) angle;;
  wind_down (turns angle) angle.

Definition clamp (value min max : float) : float :=
  if Rlt_dec value min then min
  else if Rgt_dec value max then max
  else value.

Definition apply_min_duty (duty min_duty : Z) : Z :=
  if (duty =? 0)%Z then 0%Z
  else if ((duty >? 0) && (duty <? min_duty))%Z then min_duty
  else if ((duty <? 0) && (duty >? - min_duty))%Z then wrap16 (- min_duty)
  else duty.

(** [(int16_t)(speed * config->max_duty)] for both sides. *)
Definition to_duties (left_speed right_speed : float) (config : fuzzy_config_t)
  : option motor_command_t :=
  l <- cast_int16 (left_speed * IZR (max_duty config));;
  r <- cast_int16 (right_speed * IZR (max_duty config));;
  Some {| left_duty := l; right_duty := r |}.

Definition process_arcade_mode (angle magnitude : float)
    (config : fuzzy_config_t) : option motor_command_t :=
  let x := magnitude * cos angle in
  let y := magnitude * sin angle in
  let base_speed := y in
  let turn_rate := x * turn_factor config in
  let left_speed := clamp (base_speed + turn_rate) (-1) 1 in
  let right_speed := clamp (base_speed - turn_rate) (-1) 1 in
  to_duties left_speed right_speed config.

Definition process_tank_mode (angle magnitude : float)
    (config : fuzzy_config_t) : option motor_command_t :=
  let x := magnitude * cos angle in
  let y := magnitude * sin angle in
  let left_speed := clamp (y + x) (-1) 1 in
  let right_speed := clamp (y - x) (-1) 1 in
  to_duties left_speed right_speed config.

Definition process_car_mode (angle magnitude : float)
    (config : fuzzy_config_t) : option motor_command_t :=
  angle <- normalize_angle angle;;
  let forward_component := sin angle in
  let turn_component := Rabs (cos angle) in
  let base_speed := forward_component in
  let reduction := turn_component * turn_factor config in
  let '(left_speed, right_speed) :=
    if Rgt_dec (cos angle) 0
    then (base_speed, base_speed * (1 - reduction))
    else (base_speed * (1 - reduction), base_speed) in
  let left_speed := left_speed * magnitude in
  let right_speed := right_speed * magnitude in
  to_duties left_speed right_speed config.

Definition process_smooth_mode (angle magnitude : float)
    (config : fuzzy_config_t) : option motor_command_t :=
  let smooth_turn_factor := turn_factor config * 0.7 in
  let x := magnitude * cos angle in
  let y := magnitude * sin angle in
  let base_speed := y in
  let turn_rate := x * smooth_turn_factor in
  let left_speed := clamp (base_speed + turn_rate) (-1) 1 in
  let right_speed := clamp (base_speed - turn_rate) (-1) 1 in
  to_duties left_speed right_speed config.

(** *** Public functions

    [current_config] is the module's static configuration; functions that
    write it return its new value. *)

Definition fuzzy_control_init : fuzzy_config_t :=
  {| mode := FUZZY_MODE_ARCADE;
     curve := FUZZY_CURVE_QUADRATIC;
     dead_zone := FUZZY_DEAD_ZONE;
     turn_factor := FUZZY_TURN_FACTOR;
     max_duty := FUZZY_MAX_DUTY;
     min_duty := FUZZY_MIN_DUTY;
     invert_left := false;
     invert_right := false |}.

(** Single-field assignments [current_config.f = v]. *)
Definition set_mode (v : fuzzy_control_mode_t) (c : fuzzy_config_t) :=
  {| mode := v; curve := curve c; dead_zone := dead_zone c;
     turn_factor := turn_factor c; max_duty := max_duty c;
     min_duty := min_duty c; invert_left := invert_left c;
     invert_right := invert_right c |}.

Definition set_curve (v : fuzzy_curve_type_t) (c : fuzzy_config_t) :=
  {| mode := mode c; curve := v; dead_zone := dead_zone c;
     turn_factor := turn_factor c; max_duty := max_duty c;
     min_duty := min_duty c; invert_left := invert_left c;
     invert_right := invert_right c |}.

Definition set_dead_zone (v : float) (c : fuzzy_config_t) :=
  {| mode := mode c; curve := curve c; dead_zone := v;
     turn_factor := turn_factor c; max_duty := max_duty c;
     min_duty := min_duty c; invert_left := invert_left c;
     invert_right := invert_right c |}.

Definition set_turn_factor (v : float) (c : fuzzy_config_t) :=
  {| mode := mode c; curve := curve c; dead_zone := dead_zone c;
     turn_factor := v; max_duty := max_duty c;
     min_duty := min_duty c; invert_left := invert_left c;
     invert_right := invert_right c |}.

Definition set_max_duty (v : Z) (c : fuzzy_config_t) :=
  {| mode := mode c; curve := curve c; dead_zone := dead_zone c;
     turn_factor := turn_factor c; max_duty := v;
     min_duty := min_duty c; invert_left := invert_left c;
     invert_right := invert_right c |}.

Definition set_min_duty (v : Z) (c : fuzzy_config_t) :=
  {| mode := mode c; curve := curve c; dead_zone := dead_zone c;
     turn_factor := turn_factor c; max_duty := max_duty c;
     min_duty := v; invert_left := invert_left c;
     invert_right := invert_right c |}.

Definition set_invert_left (v : bool) (c : fuzzy_config_t) :=
  {| mode := mode c; curve := curve c; dead_zone := dead_zone c;
     turn_factor := turn_factor c; max_duty := max_duty c;
     min_duty := min_duty c; invert_left := v;
     invert_right := invert_right c |}.

Definition set_invert_right (v : bool) (c : fuzzy_config_t) :=
  {| mode := mode c; curve := curve c; dead_zone := dead_zone c;
     turn_factor := turn_factor c; max_duty := max_duty c;
     min_duty := min_duty c; invert_left := invert_left c;
     invert_right := v |}.

Definition fuzzy_control_set_config (config current_config : fuzzy_config_t)
  : fuzzy_config_t := config.

Definition fuzzy_control_set_mode (m : fuzzy_control_mode_t)
    (current_config : fuzzy_config_t) : fuzzy_config_t :=
  set_mode m current_config.

Definition fuzzy_control_set_curve (c : fuzzy_curve_type_t)
    (current_config : fuzzy_config_t) : fuzzy_config_t :=
  set_curve c current_config.

Definition fuzzy_control_set_inversion (inv_left inv_right : bool)
    (current_config : fuzzy_config_t) : fuzzy_config_t :=
  set_invert_right inv_right (set_invert_left inv_left current_config).

(** The assignments a function makes to [current_config], in program
    order, and their effect when run to the end. *)
Definition assignments : Type := list (fuzzy_config_t -> fuzzy_config_t).

Definition run_assignments (a : assignments) (c : fuzzy_config_t)
  : fuzzy_config_t :=
  fold_left (fun c assign => assign c) a c.

Definition preset_gentle_assignments : assignments :=
  [ set_mode FUZZY_MODE_SMOOTH; set_curve FUZZY_CURVE_QUADRATIC;
    set_dead_zone 0.10; set_turn_factor 0.5;
    set_max_duty 180; set_min_duty 40 ].

Definition preset_normal_assignments : assignments :=
  [ set_mode FUZZY_MODE_ARCADE; set_curve FUZZY_CURVE_QUADRATIC;
    set_dead_zone 0.08; set_turn_factor 0.7;
    set_max_duty 255; set_min_duty 35 ].

Definition preset_aggressive_assignments : assignments :=
  [ set_mode FUZZY_MODE_TANK; set_curve FUZZY_CURVE_LINEAR;
    set_dead_zone 0.05; set_turn_factor 1.0;
    set_max_duty 255; set_min_duty 30 ].

Definition preset_precision_assignments : assignments :=
  [ set_mode FUZZY_MODE_CAR; set_curve FUZZY_CURVE_CUBIC;
    set_dead_zone 0.08; set_turn_factor 0.6;
    set_max_duty 150; set_min_duty 40 ].

Definition fuzzy_control_preset_gentle (current_config : fuzzy_config_t)
  : fuzzy_config_t :=
  run_assignments preset_gentle_assignments current_config.

Definition fuzzy_control_preset_normal (current_config : fuzzy_config_t)
  : fuzzy_config_t :=
  run_assignments preset_normal_assignments current_config.

Definition fuzzy_control_preset_aggressive (current_config : fuzzy_config_t)
  : fuzzy_config_t :=
  run_assignments preset_aggressive_assignments current_config.

Definition fuzzy_control_preset_precision (current_config : fuzzy_config_t)
  : fuzzy_config_t :=
  run_assignments preset_precision_assignments current_config.

(** The mode switch of [fuzzy_control_process]. *)
Definition process_mode (angle magnitude : float) (config : fuzzy_config_t)
  : option motor_command_t :=
  match mode config with
  | FUZZY_MODE_ARCADE => process_arcade_mode angle magnitude config
  | FUZZY_MODE_TANK => process_tank_mode angle magnitude config
  | FUZZY_MODE_CAR => process_car_mode angle magnitude config
  | FUZZY_MODE_SMOOTH => process_smooth_mode angle magnitude config
  end.

(** [fuzzy_control_process] from the test [magnitude == 0.0f] on, with
    [magnitude] the result of [apply_dead_zone]. *)
Definition process_rescaled (current_config : fuzzy_config_t)
    (angle magnitude : float) : option motor_command_t :=
  if Req_dec_T magnitude 0 then Some {| left_duty := 0; right_duty := 0 |}
  else
    magnitude <- apply_curve magnitude (curve current_config);;
    angle <- normalize_angle angle;;
    output <- process_mode angle magnitude current_config;;
    let l := apply_min_duty (left_duty output) (min_duty current_config) in
    let r := apply_min_duty (right_duty output) (min_duty current_config) in
    let l := if invert_left current_config then wrap16 (- l) else l in
    let r := if invert_right current_config then wrap16 (- r) else r in
    Some {| left_duty := l; right_duty := r |}.

(** [fuzzy_control_process], called with a valid [output] pointer; the
    result is the command written through it. *)
Definition fuzzy_control_process (current_config : fuzzy_config_t)
    (angle magnitude : float) : option motor_command_t :=
  magnitude <- apply_dead_zone magnitude (dead_zone current_config);;
  process_rescaled current_config angle magnitude.

(** [(int16_t)(alpha * target + (1.0f - alpha) * current)] for one side:
    the duties are converted to [float] exactly, and each product, the
    difference and the sum are rounded to [float]. *)
Definition blend (alpha : float) (target current : Z) : option Z :=
  toward <- to_float (alpha * IZR target);;
  rest <- to_float (1 - alpha);;
  kept <- to_float (rest * IZR current);;
  sum <- to_float (toward + kept);;
  cast_int16 sum.

(** [fuzzy_control_smooth], called with valid pointers; the result is the
    command written through [output]. *)
Definition fuzzy_control_smooth (current target : motor_command_t)
    (alpha : float) : option motor_command_t :=
  let alpha := clamp alpha 0 1 in
  l <- blend alpha (left_duty target) (left_duty current);;
  r <- blend alpha (right_duty target) (right_duty current);;
  Some {| left_duty := l; right_duty := r |}.

(** *** Vocabulary of the specification *)



(** The invariants of the data model on a configuration. *)
Definition config_invariant (c : fuzzy_config_t) : Prop :=
  0 <= dead_zone c <= 1 /\ 0 <= turn_factor c <= 1 /\
  (0 <= min_duty c <= max_duty c)%Z.

(** A duty respects the limits of a configuration: at most [max_duty] in
    absolute value and, unless zero, at least [min_duty]. *)
Definition duty_within (c : fuzzy_config_t) (d : Z) : Prop :=
  (Z.abs d <= max_duty c)%Z /\ (d <> 0%Z -> (min_duty c <= Z.abs d)%Z).

Definition command_within (c : fuzzy_config_t) (out : motor_command_t) : Prop :=
  duty_within c (left_duty out) /\ duty_within c (right_duty out).

Definition stop_command : motor_command_t :=
  {| left_duty := 0; right_duty := 0 |}.

(** The configuration [motor_control_task] starts with: the defaults, then
    the "normal" preset. *)
Definition normal_config : fuzzy_config_t :=
  fuzzy_control_preset_normal fuzzy_control_init.

(** The configuration after the "precision" preset, whose mode is Car. *)
Definition precision_config : fuzzy_config_t :=
  fuzzy_control_preset_precision fuzzy_control_init.

End Fuzzy.

(** ** Odometry (encoder.c) *)

Module Encoder.

Import CInt CFloat.
Local Open Scope R_scope.

(** The outcome of a driver call, with every error code folded into one. *)
Inductive esp_err_t : Type :=
  | ESP_OK
  | ESP_FAIL.

(** encoder.h *)
Definition ENCODER_PULSES_PER_3_REVS : float := 1000.
Definition ENCODER_PPR : float := ENCODER_PULSES_PER_3_REVS / 3.0.
Definition ENCODER_CPR : float := ENCODER_PPR * 4.0.

(** [encoder_instance_t] without its driver handles: the pulse counter
    behind them belongs to the hardware, and its readings enter the model
    as arguments. *)
Record encoder_instance_t : Type := {
  last_count : Z;        (* int32_t *)
  last_time_us : Z;      (* int64_t *)
  rpm : float;
  distance_m : float
}.

(** The static variables of encoder.c. *)
Record encoder_state : Type := {
  left_encoder : encoder_instance_t;
  right_encoder : encoder_instance_t;
  wheel_diameter_mm : float;
  wheel_circumference_m : float
}.

Definition with_left (e : encoder_instance_t) (st : encoder_state) :=
  {| left_encoder := e; right_encoder := right_encoder st;
     wheel_diameter_mm := wheel_diameter_mm st;
     wheel_circumference_m := wheel_circumference_m st |}.

Definition with_right (e : encoder_instance_t) (st : encoder_state) :=
  {| left_encoder := left_encoder st; right_encoder := e;
     wheel_diameter_mm := wheel_diameter_mm st;
     wheel_circumference_m := wheel_circumference_m st |}.

(** The body shared by [encoder_clear_left] and [encoder_clear_right];
    [ret] is what [pcnt_unit_clear_count] returned. *)
Definition clear_instance (ret : esp_err_t) (e : encoder_instance_t)
  : encoder_instance_t :=
  match ret with
  | ESP_OK =>
      {| last_count := 0; last_time_us := last_time_us e;
         rpm := rpm e; distance_m := 0 |}
  | ESP_FAIL => e
  end.

(** The tracking variables as [init_encoder_pcnt] leaves them, with
    [now_us] the clock value it read. *)
Definition init_instance (now_us : Z) : encoder_instance_t :=
  {| last_count := 0; last_time_us := now_us; rpm := 0; distance_m := 0 |}.

(** The state after an [encoder_init] whose driver calls all succeeded,
    with the default wheel diameter of 65 mm. *)
Definition encoder_init (now_left_us now_right_us : Z) : encoder_state :=
  {| left_encoder := init_instance now_left_us;
     right_encoder := init_instance now_right_us;
     wheel_diameter_mm := 65.0;
     wheel_circumference_m := (Fuzzy.M_PI * 65.0) / 1000 |}.

Definition encoder_clear_left (ret : esp_err_t) (st : encoder_state)
  : encoder_state * esp_err_t :=
  (with_left (clear_instance ret (left_encoder st)) st, ret).

Definition encoder_clear_right (ret : esp_err_t) (st : encoder_state)
  : encoder_state * esp_err_t :=
  (with_right (clear_instance ret (right_encoder st)) st, ret).

Definition encoder_get_rpm_left (st : encoder_state) : float :=
  rpm (left_encoder st).

Definition encoder_get_rpm_right (st : encoder_state) : float :=
  rpm (right_encoder st).

Definition encoder_get_distance_left (st : encoder_state) : float :=
  distance_m (left_encoder st).

Definition encoder_get_distance_right (st : encoder_state) : float :=
  distance_m (right_encoder st).

Definition encoder_set_wheel_diameter (diameter_mm : float)
    (st : encoder_state) : encoder_state :=
  {| left_encoder := left_encoder st; right_encoder := right_encoder st;
     wheel_diameter_mm := diameter_mm;
     wheel_circumference_m := (Fuzzy.M_PI * diameter_mm) / 1000 |}.

(** The locals [delta_count] (32 bits) and [delta_time_us] (64 bits) of
    [encoder_update], for the wheel whose instance is [e]. *)
Definition delta_count (current_count : Z) (e : encoder_instance_t) : Z :=
  wrap32 (current_count - last_count e).

Definition delta_time_us (current_time_us : Z) (e : encoder_instance_t) : Z :=
  wrap64 (current_time_us - last_time_us e).

(** One wheel's block of [encoder_update] (the two blocks are the same
    code on [left_encoder] and [right_encoder]).  [reading] is the result
    of [encoder_get_count_*]: [Some current_count] for [ESP_OK], [None]
    for an error.  Both divisions are by non-zero values: [ENCODER_CPR] is
    a non-zero constant and [time_minutes] is positive under the guard. *)
Definition sample_wheel (current_time_us : Z) (reading : option Z)
    (circumference : float) (e : encoder_instance_t) : encoder_instance_t :=
  match reading with
  | None => e
  | Some current_count =>
      let delta_count := delta_count current_count e in
      let delta_time_us := delta_time_us current_time_us e in
      let '(new_rpm, new_distance) :=
        if (delta_time_us >? 0)%Z then
          let revolutions := IZR delta_count / ENCODER_CPR in
          let time_minutes := IZR delta_time_us / 60000000.0 in
          let distance_delta := revolutions * circumference in
          (revolutions / time_minutes, distance_m e + distance_delta)
        else (rpm e, distance_m e) in
      {| last_count := current_count; last_time_us := current_time_us;
         rpm := new_rpm; distance_m := new_distance |}
  end.

(** [encoder_update]: [current_time_us] is what [esp_timer_get_time]
    returned, read once for both wheels. *)
Definition encoder_update (current_time_us : Z)
    (reading_left reading_right : option Z) (st : encoder_state)
  : encoder_state :=
  let c := wheel_circumference_m st in
  let st := with_left
              (sample_wheel current_time_us reading_left c (left_encoder st))
              st in
  with_right
    (sample_wheel current_time_us reading_right c (right_encoder st)) st.

(** One call of [encoder_update] as seen from outside: the clock value and
    the two counter readings. *)
Record sample_t : Type := {
  at_time_us : Z;
  count_left : option Z;
  count_right : option Z
}.

Definition encoder_update_on (s : sample_t) (st : encoder_state)
  : encoder_state :=
  encoder_update (at_time_us s) (count_left s) (count_right s) st.

(** A sequence of sampling calls, oldest first. *)
Definition encoder_run (samples : list sample_t) (st : encoder_state)
  : encoder_state :=
  fold_left (fun st s => encoder_update_on s st) samples st.

(** *** Vocabulary of the specification *)



(** A wheel's sample was skipped: between [e] and [e'] the rpm and the
    cumulative distance did not change, while a successful reading [c] taken
    at [now] became the new baseline. *)
Definition sample_skipped (now : Z) (reading : option Z)
    (e e' : encoder_instance_t) : Prop :=
  rpm e' = rpm e /\ distance_m e' = distance_m e /\
  forall c, reading = Some c -> last_count e' = c /\ last_time_us e' = now.

(** The deltas of the next sample are taken from count [c] and time [now]. *)
Definition next_deltas_from (c now : Z) (e' : encoder_instance_t) : Prop :=
  forall c2 now2,
    delta_count c2 e' = wrap32 (c2 - c) /\
    delta_time_us now2 e' = wrap64 (now2 - now).

(** Counts and clock values far from the ends of their integer types, so
    that no difference of two of them wraps. *)
Definition count_in_range (c : Z) : Prop := (- 2 ^ 30 <= c < 2 ^ 30)%Z.


End Encoder.

(** ** The Actuation Governor (motor_control.c) *)

Module Motor.

Local Open Scope Z_scope.

Definition MOTOR_PWM_RESOLUTION : Z := 255.

(** The compare values held by a motor's two comparators; the driver calls
    that set them are taken to succeed. *)
Record motor_mcpwm_t : Type := {
  comparator_fwd : Z;
  comparator_bwd : Z
}.

Record motor_state : Type := {
  left_motor : motor_mcpwm_t;
  right_motor : motor_mcpwm_t
}.

(** The body shared by [motor_set_left] and [motor_set_right]. *)
Definition motor_set (duty : Z) : motor_mcpwm_t :=
  let duty := if duty >? MOTOR_PWM_RESOLUTION then MOTOR_PWM_RESOLUTION
              else duty in
  let duty := if duty <? - MOTOR_PWM_RESOLUTION then - MOTOR_PWM_RESOLUTION
              else duty in
  if duty >? 0 then {| comparator_fwd := duty; comparator_bwd := 0 |}
  else if duty <? 0 then {| comparator_fwd := 0; comparator_bwd := - duty |}
  else {| comparator_fwd := 0; comparator_bwd := 0 |}.

Definition motor_set_left (duty : Z) (st : motor_state) : motor_state :=
  {| left_motor := motor_set duty; right_motor := right_motor st |}.

Definition motor_set_right (duty : Z) (st : motor_state) : motor_state :=
  {| left_motor := left_motor st; right_motor := motor_set duty |}.

Definition motor_stop (st : motor_state) : motor_state :=
  motor_set_right 0 (motor_set_left 0 st).

(** Which of a motor's two comparators a driver call addresses. *)
Inductive comparator_t : Type :=
  | COMPARATOR_FWD
  | COMPARATOR_BWD.

(** [mcpwm_comparator_set_compare_value], taken to succeed. *)
Definition mcpwm_comparator_set_compare_value (cmpr : comparator_t)
    (cmp_ticks : Z) (m : motor_mcpwm_t) : motor_mcpwm_t :=
  match cmpr with
  | COMPARATOR_FWD =>
      {| comparator_fwd := cmp_ticks; comparator_bwd := comparator_bwd m |}
  | COMPARATOR_BWD =>
      {| comparator_fwd := comparator_fwd m; comparator_bwd := cmp_ticks |}
  end.

(** The two driver calls of [motor_set_left] / [motor_set_right], in
    program order. *)
Definition motor_set_calls (duty : Z) : list (comparator_t * Z) :=
  let duty := if duty >? MOTOR_PWM_RESOLUTION then MOTOR_PWM_RESOLUTION
              else duty in
  let duty := if duty <? - MOTOR_PWM_RESOLUTION then - MOTOR_PWM_RESOLUTION
              else duty in
  if duty >? 0 then [(COMPARATOR_BWD, 0); (COMPARATOR_FWD, duty)]
  else if duty <? 0 then [(COMPARATOR_FWD, 0); (COMPARATOR_BWD, - duty)]
  else [(COMPARATOR_FWD, 0); (COMPARATOR_BWD, 0)].

Definition run_calls (calls : list (comparator_t * Z)) (m : motor_mcpwm_t)
  : motor_mcpwm_t :=
  fold_left (fun m call =>
               mcpwm_comparator_set_compare_value (fst call) (snd call) m)
            calls m.

(** *** Vocabulary of the specification *)

(** The bridge is driven in one direction at most. *)
Definition exclusive (m : motor_mcpwm_t) : Prop :=
  comparator_fwd m = 0 \/ comparator_bwd m = 0.

End Motor.

(** ** Command Relay and Control Loop (main.c) *)

Module Main.

Import CFloat.
Local Open Scope Z_scope.

Definition MOTOR_CONTROL_RATE_HZ : Z := 50.
Definition TELEMETRY_RATE_HZ : Z := 10.

Record joystick_cmd_t : Type := {
  angle : float;
  magnitude : float;
  timestamp : Z        (* uint32_t *)
}.

(** *** The FreeRTOS queue

    [joystick_queue] is created by [xQueueCreate(10, sizeof(joystick_cmd_t))]:
    a first-in first-out buffer of at most ten items. *)

Definition JOYSTICK_QUEUE_LENGTH : nat := 10.

Definition queue : Type := list joystick_cmd_t.

Definition xQueueCreate : queue := [].

(** FreeRTOS's macro, for a tick rate of [configTICK_RATE_HZ]. *)
Definition pdMS_TO_TICKS (configTICK_RATE_HZ xTimeInMs : Z) : Z :=
  (xTimeInMs * configTICK_RATE_HZ) / 1000.

(** [xQueueSend]: the item goes to the back when there is room.  The
    results are the queue, whether [pdTRUE] was returned, and the ticks the
    caller stayed blocked; with the queue full and nothing received in
    between, the caller is held for the whole of [xTicksToWait]. *)
Definition xQueueSend (q : queue) (item : joystick_cmd_t) (xTicksToWait : Z)
  : queue * bool * Z :=
  if (length q <? JOYSTICK_QUEUE_LENGTH)%nat then (q ++ [item], true, 0)
  else (q, false, xTicksToWait).

(** [xQueueReceive]: the item at the front is taken.  On an empty queue
    the caller waits; [arrival] is the next push of the other side, as the
    tick offset from the call and the item pushed.  The results are the
    item received if any, the queue, and the ticks waited. *)
Definition xQueueReceive (q : queue) (xTicksToWait : Z)
    (arrival : option (Z * joystick_cmd_t))
  : option joystick_cmd_t * queue * Z :=
  match q with
  | item :: rest => (Some item, rest, 0)
  | [] =>
      match arrival with
      | Some (t, item) =>
          if t <? xTicksToWait then (Some item, [], Z.max 0 t)
          else (None, [], xTicksToWait)
      | None => (None, [], xTicksToWait)
      end
  end.

(** *** Shared state of the tasks *)

Record main_state : Type := {
  joystick_queue : queue;
  current_left_pwm : Z;       (* int16_t *)
  current_right_pwm : Z;      (* int16_t *)
  motors : Motor.motor_state;
  current_config : Fuzzy.fuzzy_config_t
}.

Definition with_queue (q : queue) (st : main_state) : main_state :=
  {| joystick_queue := q;
     current_left_pwm := current_left_pwm st;
     current_right_pwm := current_right_pwm st;
     motors := motors st;
     current_config := current_config st |}.

(** [websocket_control_callback], called with a non-null message whose
    fields are [cmd].  The second result is the ticks spent blocked in
    [xQueueSend]. *)
Definition websocket_control_callback (cmd : joystick_cmd_t)
    (st : main_state) : main_state * Z :=
  let '(q, _, blocked) := xQueueSend (joystick_queue st) cmd 0 in
  (with_queue q st, blocked).

(** The receive at the head of the loop of [motor_control_task]. *)
Definition control_receive (configTICK_RATE_HZ : Z)
    (arrival : option (Z * joystick_cmd_t)) (st : main_state)
  : option joystick_cmd_t * queue * Z :=
  let timeout := pdMS_TO_TICKS configTICK_RATE_HZ 100 in
  xQueueReceive (joystick_queue st) timeout arrival.

(** One turn of the loop of [motor_control_task], up to the [vTaskDelay]
    that ends it.  The result is undefined when the Drive Mapper's is. *)
Definition motor_control_iteration (configTICK_RATE_HZ : Z)
    (arrival : option (Z * joystick_cmd_t)) (st : main_state)
  : option main_state :=
  let '(received, q, _) := control_receive configTICK_RATE_HZ arrival st in
  match received with
  | Some cmd =>
      match Fuzzy.fuzzy_control_process (current_config st)
              (angle cmd) (magnitude cmd) with
      | Some motor_cmd =>
          Some {| joystick_queue := q;
                  current_left_pwm := Fuzzy.left_duty motor_cmd;
                  current_right_pwm := Fuzzy.right_duty motor_cmd;
                  motors :=
                    Motor.motor_set_right (Fuzzy.right_duty motor_cmd)
                      (Motor.motor_set_left (Fuzzy.left_duty motor_cmd)
                         (motors st));
                  current_config := current_config st |}
      | None => None
      end
  | None =>
      Some {| joystick_queue := q;
              current_left_pwm := 0;
              current_right_pwm := 0;
              motors := Motor.motor_stop (motors st);
              current_config := current_config st |}
  end.

(** The [vTaskDelay] at the end of each turn: one Control Loop period. *)
Definition control_period (configTICK_RATE_HZ : Z) : Z :=
  pdMS_TO_TICKS configTICK_RATE_HZ (1000 / MOTOR_CONTROL_RATE_HZ).

(** *** Vocabulary of the specification *)

(** The state when the tasks are created: an empty queue, motors stopped
    by [motor_control_init], the configuration [motor_control_task] sets. *)
Definition initial_state : main_state :=
  {| joystick_queue := xQueueCreate;
     current_left_pwm := 0;
     current_right_pwm := 0;
     motors := Motor.motor_stop
                 {| Motor.left_motor := Motor.motor_set 0;
                    Motor.right_motor := Motor.motor_set 0 |};
     current_config := Fuzzy.normal_config |}.

(** Both motors are commanded exactly zero: no comparator drives a pin. *)
Definition motors_stopped (m : Motor.motor_state) : Prop :=
  Motor.left_motor m =
    {| Motor.comparator_fwd := 0; Motor.comparator_bwd := 0 |} /\
  Motor.right_motor m =
    {| Motor.comparator_fwd := 0; Motor.comparator_bwd := 0 |}.

(** A command with the stick fully forward, stamped [ts]. *)
Definition forward_cmd (ts : Z) : joystick_cmd_t :=
  {| angle := (PI / 2)%R; magnitude := 1%R; timestamp := ts |}.

(** The item and the wait among the results of a receive. *)
Definition received_item (r : option joystick_cmd_t * queue * Z)
  : option joystick_cmd_t := fst (fst r).
Definition ticks_waited (r : option joystick_cmd_t * queue * Z) : Z := snd r.

End Main.

(** ** Configuration messages and bursts of commands (main.c) *)

Module MainCallbacks.

Import Stdlib.Strings.String.
Import Fuzzy Main.
Local Open Scope string_scope.

(** [ws_config_msg_t]: the two character arrays, as the strings they
    hold up to their terminators. *)
Record ws_config_msg_t : Type := {
  param_name : string;
  param_value : string
}.

(** [websocket_config_callback], called with a non-null message, on the
    configuration of fuzzy_control.c.  [strcmp(a, b) == 0] is [a =? b]. *)
Definition websocket_config_callback (config : ws_config_msg_t)
    (current_config : fuzzy_config_t) : fuzzy_config_t :=
  if param_name config =? "control_mode" then
    if param_value config =? "arcade" then
      fuzzy_control_set_mode FUZZY_MODE_ARCADE current_config
    else if param_value config =? "tank" then
      fuzzy_control_set_mode FUZZY_MODE_TANK current_config
    else if param_value config =? "car" then
      fuzzy_control_set_mode FUZZY_MODE_CAR current_config
    else if param_value config =? "smooth" then
      fuzzy_control_set_mode FUZZY_MODE_SMOOTH current_config
    else current_config
  else if param_name config =? "preset" then
    if param_value config =? "gentle" then
      fuzzy_control_preset_gentle current_config
    else if param_value config =? "normal" then
      fuzzy_control_preset_normal current_config
    else if param_value config =? "aggressive" then
      fuzzy_control_preset_aggressive current_config
    else if param_value config =? "precision" then
      fuzzy_control_preset_precision current_config
    else current_config
  else current_config.

(** A sequence of configuration messages, oldest first. *)
Definition config_run (msgs : list ws_config_msg_t) (c : fuzzy_config_t)
  : fuzzy_config_t :=
  fold_left (fun c msg => websocket_config_callback msg c) msgs c.

(** A burst of control messages, oldest first, with no turn of the Control
    Loop in between. *)
Definition relay_run (cmds : list joystick_cmd_t) (st : main_state)
  : main_state :=
  fold_left (fun st cmd => fst (websocket_control_callback cmd st)) cmds st.

(** Up to [n] receives in a row that do not wait (no push in between):
    the commands received, oldest first. *)
Fixpoint receive_all (n : nat) (q : queue) : list joystick_cmd_t :=
  match n with
  | O => []
  | S n =>
      match xQueueReceive q 0 None with
      | (Some item, q, _) => item :: receive_all n q
      | (None, _, _) => []
      end
  end.

(** *** Vocabulary of the specification *)

(** The values [websocket_config_callback] knows for its two parameters,
    and the messages it acts on. *)
Definition mode_values : list string := ["arcade"; "tank"; "car"; "smooth"].

Definition preset_values : list string :=
  ["gentle"; "normal"; "aggressive"; "precision"].

Definition recognised (msg : ws_config_msg_t) : Prop :=
  (param_name msg = "control_mode" /\ In (param_value msg) mode_values) \/
  (param_name msg = "preset" /\ In (param_value msg) preset_values).

(** A configuration the Drive Mapper and the motor driver can both work
    with: the invariants of the data model, a dead zone below 1, and a
    maximum duty the PWM resolution covers. *)
Definition drivable (c : fuzzy_config_t) : Prop :=
  config_invariant c /\ (dead_zone c < 1)%R /\
  (max_duty c <= Motor.MOTOR_PWM_RESOLUTION)%Z.

End MainCallbacks.

(** ** The client table of the WebSocket server (websocket_server.c) *)

Module WebSocket.

Import CInt.
Local Open Scope Z_scope.

Definition WS_MAX_CLIENTS : nat := 4.

Record ws_client_info_t : Type := {
  fd : Z;               (* int *)
  connected : bool;
  last_ping : Z         (* uint32_t *)
}.

(** A slot of the zero-initialised table. *)
Definition empty_slot : ws_client_info_t :=
  {| fd := 0; connected := false; last_ping := 0 |}.

(** The statics of websocket_server.c that the client management uses:
    [server] is whether the handle is non-null, [connected_clients] the
    array of [WS_MAX_CLIENTS] slots. *)
Record ws_server_t : Type := {
  server : bool;
  connected_clients : list ws_client_info_t;
  client_count : Z      (* int *)
}.

Definition initial_server : ws_server_t :=
  {| server := false;
     connected_clients := repeat empty_slot WS_MAX_CLIENTS;
     client_count := 0 |}.

(** The loop of [find_client_slot], from index [i] on. *)
Fixpoint find_slot_from (i : Z) (slots : list ws_client_info_t) (fd0 : Z)
  : Z :=
  match slots with
  | [] => -1
  | s :: rest => if fd s =? fd0 then i else find_slot_from (i + 1) rest fd0
  end.

Definition find_client_slot (fd0 : Z) (st : ws_server_t) : Z :=
  find_slot_from 0 (connected_clients st) fd0.

(** The loop of [add_client]: the index of the first slot that is not
    connected. *)
Fixpoint first_free_from (i : nat) (slots : list ws_client_info_t)
  : option nat :=
  match slots with
  | [] => None
  | s :: rest =>
      if negb (connected s) then Some i else first_free_from (S i) rest
  end.

(** Assignments to the fields of [connected_clients[idx]]. *)
Fixpoint update_slot (idx : nat) (f : ws_client_info_t -> ws_client_info_t)
    (slots : list ws_client_info_t) : list ws_client_info_t :=
  match slots, idx with
  | [], _ => []
  | s :: rest, O => f s :: rest
  | s :: rest, S n => s :: update_slot n f rest
  end.

(** [add_client]; [now] is what [esp_log_timestamp] returns. *)
Definition add_client (fd0 now : Z) (st : ws_server_t) : ws_server_t :=
  match first_free_from 0 (connected_clients st) with
  | Some i =>
      {| server := server st;
         connected_clients :=
           update_slot i
             (fun _ => {| fd := fd0; connected := true; last_ping := now |})
             (connected_clients st);
         client_count := wrap32 (client_count st + 1) |}
  | None => st
  end.

Definition remove_client (fd0 : Z) (st : ws_server_t) : ws_server_t :=
  let idx := find_client_slot fd0 st in
  if idx >=? 0 then
    {| server := server st;
       connected_clients :=
         update_slot (Z.to_nat idx)
           (fun s => {| fd := 0; connected := false;
                        last_ping := last_ping s |})
           (connected_clients st);
       client_count := wrap32 (client_count st - 1) |}
  else st.

(** [websocket_server_start]; [httpd_ok] is whether [httpd_start]
    succeeded.  The client table is left as it is. *)
Definition websocket_server_start (httpd_ok : bool) (st : ws_server_t)
  : ws_server_t :=
  if server st then st
  else if httpd_ok then
    {| server := true; connected_clients := connected_clients st;
       client_count := client_count st |}
  else st.

Definition websocket_server_stop (st : ws_server_t) : ws_server_t :=
  if server st then
    {| server := false;
       connected_clients := repeat empty_slot WS_MAX_CLIENTS;
       client_count := 0 |}
  else st.

Definition websocket_server_get_client_count (st : ws_server_t) : Z :=
  client_count st.

(** [websocket_server_broadcast_telemetry], called with a message that can
    be serialised: the descriptors [trigger_async_send] is called with, in
    the order of the calls. *)
Definition websocket_server_broadcast_telemetry (st : ws_server_t) : list Z :=
  if negb (server st) || (client_count st =? 0) then []
  else map fd (filter connected (connected_clients st)).

(** [websocket_server_ping_clients]: the descriptors pinged and the
    state, in which every connected slot has its [last_ping] renewed. *)
Definition websocket_server_ping_clients (now : Z) (st : ws_server_t)
  : list Z * ws_server_t :=
  if negb (server st) || (client_count st =? 0) then ([], st)
  else
    (map fd (filter connected (connected_clients st)),
     {| server := server st;
        connected_clients :=
          map (fun s => if connected s
                        then {| fd := fd s; connected := connected s;
                                last_ping := now |}
                        else s)
              (connected_clients st);
        client_count := client_count st |}).

(** The loop of [websocket_server_get_clients]: the slots copied out. *)
Fixpoint get_clients_from (slots : list ws_client_info_t)
    (count max_clients : Z) : list ws_client_info_t :=
  match slots with
  | [] => []
  | s :: rest =>
      if count <? max_clients then
        if connected s then s :: get_clients_from rest (count + 1) max_clients
        else get_clients_from rest count max_clients
      else []
  end.

(** [websocket_server_get_clients], called with a non-null array: the
    slots written to it; the count returned is their number. *)
Definition websocket_server_get_clients (max_clients : Z) (st : ws_server_t)
  : list ws_client_info_t :=
  get_clients_from (connected_clients st) 0 max_clients.

(** What happens to the table, as [websocket_handler] and the public
    functions are called. *)
Inductive ws_event : Type :=
  | Handshake (fd0 now : Z)     (* an HTTP GET: [add_client] *)
  | Close (fd0 : Z)             (* a close frame: [remove_client] *)
  | Ping (now : Z)              (* [websocket_server_ping_clients] *)
  | Start (httpd_ok : bool)     (* [websocket_server_start] *)
  | Stop.                       (* [websocket_server_stop] *)

Definition ws_step (st : ws_server_t) (ev : ws_event) : ws_server_t :=
  match ev with
  | Handshake fd0 now => add_client fd0 now st
  | Close fd0 => remove_client fd0 st
  | Ping now => snd (websocket_server_ping_clients now st)
  | Start httpd_ok => websocket_server_start httpd_ok st
  | Stop => websocket_server_stop st
  end.

Definition ws_run (evs : list ws_event) (st : ws_server_t) : ws_server_t :=
  fold_left ws_step evs st.

(** *** Vocabulary of the specification *)

(** The connected slots of the table, in slot order. *)
Definition tracked (st : ws_server_t) : list ws_client_info_t :=
  filter connected (connected_clients st).

(** The table is consistent: it has its [WS_MAX_CLIENTS] slots,
    [client_count] is the number of connected slots, and a slot that is
    not connected holds descriptor 0 (as zero-initialised and as
    [remove_client] leaves it). *)
Definition table_consistent (st : ws_server_t) : Prop :=
  length (connected_clients st) = WS_MAX_CLIENTS /\
  client_count st = Z.of_nat (length (tracked st)) /\
  Forall (fun s => connected s = false -> fd s = 0) (connected_clients st).

(** No close frame of the run comes from descriptor 0. *)
Definition closes_nonzero (evs : list ws_event) : Prop :=
  Forall (fun ev => match ev with Close fd0 => fd0 <> 0 | _ => True end) evs.

End WebSocket.

(** ** Connection retries of the WiFi manager (wifi_manager.c) *)

Module Wifi.

Import CInt.
Local Open Scope Z_scope.

Inductive wifi_status_t : Type :=
  | WIFI_STATUS_DISCONNECTED
  | WIFI_STATUS_CONNECTING
  | WIFI_STATUS_CONNECTED
  | WIFI_STATUS_GOT_IP
  | WIFI_STATUS_ERROR.

(** The events [wifi_event_handler] is registered for: the cases of its
    switch, [WIFI_EVENT_OTHER] for every other event of base
    [WIFI_EVENT]. *)
Inductive wifi_event_t : Type :=
  | WIFI_EVENT_AP_STACONNECTED
  | WIFI_EVENT_AP_STADISCONNECTED
  | WIFI_EVENT_STA_START
  | WIFI_EVENT_STA_DISCONNECTED
  | WIFI_EVENT_AP_START
  | WIFI_EVENT_OTHER
  | IP_EVENT_STA_GOT_IP.

(** The statics the handler uses: [sta_max_retry] is the field of
    [current_config] (a [uint8_t]), [callback_registered] is whether
    [event_callback] is non-null. *)
Record wifi_state : Type := {
  current_status : wifi_status_t;
  retry_count : Z;             (* int *)
  sta_max_retry : Z;
  callback_registered : bool
}.

(** What the handler does to the outside: calls of [esp_wifi_connect] and
    of the registered callback. *)
Inductive wifi_action : Type :=
  | esp_wifi_connect
  | event_callback (status : wifi_status_t).

Definition with_status (s : wifi_status_t) (r : Z) (st : wifi_state)
  : wifi_state :=
  {| current_status := s; retry_count := r;
     sta_max_retry := sta_max_retry st;
     callback_registered := callback_registered st |}.

Definition notify (st : wifi_state) : list wifi_action :=
  if callback_registered st then [event_callback (current_status st)]
  else [].

(** [wifi_event_handler]: the new state and the actions, in program
    order. *)
Definition wifi_event_handler (ev : wifi_event_t) (st : wifi_state)
  : wifi_state * list wifi_action :=
  match ev with
  | WIFI_EVENT_AP_STACONNECTED => (st, [])
  | WIFI_EVENT_AP_STADISCONNECTED => (st, [])
  | WIFI_EVENT_STA_START =>
      (with_status WIFI_STATUS_CONNECTING (retry_count st) st,
       [esp_wifi_connect])
  | WIFI_EVENT_STA_DISCONNECTED =>
      if retry_count st <? sta_max_retry st then
        let st := with_status WIFI_STATUS_CONNECTING
                    (wrap32 (retry_count st + 1)) st in
        (st, esp_wifi_connect :: notify st)
      else
        let st := with_status WIFI_STATUS_ERROR (retry_count st) st in
        (st, notify st)
  | WIFI_EVENT_AP_START =>
      let st := with_status WIFI_STATUS_CONNECTED (retry_count st) st in
      (st, notify st)
  | WIFI_EVENT_OTHER => (st, [])
  | IP_EVENT_STA_GOT_IP =>
      let st := with_status WIFI_STATUS_GOT_IP 0 st in
      (st, notify st)
  end.

(** [wifi_event_callback] of main.c: whether it calls
    [websocket_server_start]. *)
Definition wifi_event_callback (status : wifi_status_t) : bool :=
  match status with
  | WIFI_STATUS_CONNECTED | WIFI_STATUS_GOT_IP => true
  | _ => false
  end.

(** A sequence of events, oldest first: the final state and all the
    actions. *)
Fixpoint wifi_run (evs : list wifi_event_t) (st : wifi_state)
  : wifi_state * list wifi_action :=
  match evs with
  | [] => (st, [])
  | ev :: rest =>
      let '(st1, a1) := wifi_event_handler ev st in
      let '(st2, a2) := wifi_run rest st1 in
      (st2, a1 ++ a2)
  end.

(** *** Vocabulary of the specification *)

Definition is_connect (a : wifi_action) : bool :=
  match a with esp_wifi_connect => true | _ => false end.

Definition is_sta_start (ev : wifi_event_t) : bool :=
  match ev with WIFI_EVENT_STA_START => true | _ => false end.

Definition is_got_ip (ev : wifi_event_t) : bool :=
  match ev with IP_EVENT_STA_GOT_IP => true | _ => false end.

(** The number of calls of [esp_wifi_connect] among the actions. *)
Definition connects (actions : list wifi_action) : Z :=
  Z.of_nat (length (filter is_connect actions)).

(** The retry counter is within its budget. *)
Definition within_budget (st : wifi_state) : Prop :=
  0 <= retry_count st <= sta_max_retry st /\ sta_max_retry st <= 255.

End Wifi.

(** * Properties *)

(** ** Facts about the integer and float models *)

Module CIntFacts.

Import CInt.
Local Open Scope Z_scope.

Lemma in_int16b_spec z : in_int16b z = true <-> in_int16 z.
Proof.
  unfold in_int16b, in_int16. rewrite andb_true_iff, !Z.leb_le. tauto.
Qed.

(** Range side conditions of the 16-bit type. *)
Ltac int16_range :=
  unfold in_int16, INT16_MIN, INT16_MAX in *; lia.

Lemma wrap16_small z : in_int16 z -> wrap16 z = z.
Proof.
  unfold in_int16, INT16_MIN, INT16_MAX, wrap16, wrap. intros H.
  change (2 ^ (16 - 1)) with 32768. change (2 ^ 16) with 65536.
  rewrite Z.mod_small; lia.
Qed.

Lemma wrap32_small z : - 2 ^ 31 <= z < 2 ^ 31 -> wrap32 z = z.
Proof.
  unfold wrap32, wrap. intros H.
  change (2 ^ (32 - 1)) with (2 ^ 31). rewrite Z.mod_small; lia.
Qed.


End CIntFacts.

Module CFloatFacts.

Import CFloat.
Local Open Scope R_scope.

Lemma fdiv_nonzero x y : y <> 0 -> fdiv x y = Some (x / y).
Proof. unfold fdiv. intros H. destruct (Req_dec_T y 0); [contradiction | reflexivity]. Qed.

Lemma fdiv_zero x : fdiv x 0 = None.
Proof. unfold fdiv. destruct (Req_dec_T 0 0); [reflexivity | contradiction]. Qed.

Lemma Int_part_bounds x : IZR (Int_part x) <= x < IZR (Int_part x) + 1.
Proof.
  unfold Int_part. rewrite minus_IZR. destruct (archimed x) as [H1 H2]. lra.
Qed.

Lemma Int_part_IZR z : Int_part (IZR z) = z.
Proof.
  destruct (Int_part_bounds (IZR z)) as [H1 H2].
  apply le_IZR in H1.
  assert (H3 : (z < Int_part (IZR z) + 1)%Z).
  { apply lt_IZR. rewrite plus_IZR. exact H2. }
  lia.
Qed.

Lemma trunc_IZR z : trunc (IZR z) = z.
Proof.
  unfold trunc. destruct (Rle_dec 0 (IZR z)).
  - apply Int_part_IZR.
  - rewrite <- opp_IZR, Int_part_IZR. lia.
Qed.

Lemma trunc_between (x : float) (z : Z) :
  (0 <= z)%Z -> IZR z <= x < IZR z + 1 -> trunc x = z.
Proof.
  intros Hz [Hlo Hhi]. unfold trunc.
  assert (H0 : 0 <= IZR z) by (apply IZR_le; exact Hz).
  destruct (Rle_dec 0 x) as [_ | Hn]; [| lra].
  destruct (Int_part_bounds x) as [H1 H2].
  assert (Ha : (Int_part x < z + 1)%Z) by (apply lt_IZR; rewrite plus_IZR; lra).
  assert (Hb : (z < Int_part x + 1)%Z) by (apply lt_IZR; rewrite plus_IZR; lra).
  lia.
Qed.

(** A value within [-m, m] truncates to an integer within [-m, m]. *)
Lemma trunc_abs_le (x : float) (m : Z) :
  - IZR m <= x <= IZR m -> (- m <= trunc x <= m)%Z.
Proof.
  intros [Hlo Hhi]. unfold trunc. destruct (Rle_dec 0 x) as [Hx | Hx].
  - destruct (Int_part_bounds x) as [H1 H2].
    assert (Ha : (Int_part x <= m)%Z) by (apply le_IZR; lra).
    assert (Hb : (0 < Int_part x + 1)%Z) by (apply lt_IZR; rewrite plus_IZR; simpl; lra).
    lia.
  - destruct (Int_part_bounds (- x)) as [H1 H2].
    assert (Ha : (Int_part (- x) <= m)%Z) by (apply le_IZR; lra).
    assert (Hb : (0 < Int_part (- x) + 1)%Z) by (apply lt_IZR; rewrite plus_IZR; simpl; lra).
    lia.
Qed.

Lemma cast_int16_bounded (x : float) (m : Z) :
  (0 <= m <= CInt.INT16_MAX)%Z -> - IZR m <= x <= IZR m ->
  exists d, cast_int16 x = Some d /\ (- m <= d <= m)%Z.
Proof.
  intros Hm Hx. pose proof (trunc_abs_le x m Hx) as Ht.
  exists (trunc x). split; [| exact Ht].
  unfold cast_int16.
  replace (CInt.in_int16b (trunc x)) with true; [reflexivity |].
  symmetry. apply CIntFacts.in_int16b_spec.
  unfold CInt.in_int16, CInt.INT16_MIN, CInt.INT16_MAX in *. lia.
Qed.

(** *** Rounding to single precision *)

Lemma Rabs_le_inv x a : Rabs x <= a -> - a <= x <= a.
Proof. unfold Rabs. destruct (Rcase_abs x); lra. Qed.

Lemma pow2_nonneg_exp e : (0 <= e)%Z -> pow2 e = IZR (2 ^ e).
Proof.
  intros H. unfold pow2. apply Z.leb_le in H. rewrite H. reflexivity.
Qed.

Lemma pow2_neg_exp e : (e <= 0)%Z -> pow2 e = / IZR (2 ^ (- e)).
Proof.
  intros H. unfold pow2. destruct (Z.leb_spec 0 e) as [H0 | H0];
    [| reflexivity].
  assert (E : e = 0%Z) by lia. subst e. simpl. lra.
Qed.

Lemma IZR_pow2_pos n : (0 <= n)%Z -> 0 < IZR (2 ^ n).
Proof. intros H. apply IZR_lt. apply Z.pow_pos_nonneg; lia. Qed.

Lemma pow2_pos e : 0 < pow2 e.
Proof.
  unfold pow2. destruct (Z.leb_spec 0 e).
  - apply IZR_pow2_pos. assumption.
  - apply Rinv_0_lt_compat, IZR_pow2_pos. lia.
Qed.

Lemma pow2_succ e : pow2 (e + 1) = 2 * pow2 e.
Proof.
  destruct (Z_lt_le_dec e 0) as [Hneg | Hpos].
  - rewrite (pow2_neg_exp e), (pow2_neg_exp (e + 1)) by lia.
    replace (- e)%Z with (Z.succ (- (e + 1))) by lia.
    rewrite Z.pow_succ_r by lia. rewrite mult_IZR.
    pose proof (IZR_pow2_pos (- (e + 1)) ltac:(lia)) as Hp.
    field. lra.
  - rewrite (pow2_nonneg_exp e), (pow2_nonneg_exp (e + 1)) by lia.
    replace (e + 1)%Z with (Z.succ e) by lia.
    rewrite Z.pow_succ_r by lia. rewrite mult_IZR. reflexivity.
Qed.

Lemma pow2_shift e (n : nat) :
  pow2 (e + Z.of_nat n) = IZR (2 ^ Z.of_nat n) * pow2 e.
Proof.
  induction n as [| n IH].
  - rewrite Z.add_0_r. simpl. lra.
  - rewrite Nat2Z.inj_succ.
    replace (e + Z.succ (Z.of_nat n))%Z with (e + Z.of_nat n + 1)%Z by lia.
    rewrite pow2_succ, IH, Z.pow_succ_r by lia. rewrite mult_IZR. ring.
Qed.

Lemma pow2_le e1 e2 : (e1 <= e2)%Z -> pow2 e1 <= pow2 e2.
Proof.
  intros H. replace e2 with (e1 + Z.of_nat (Z.to_nat (e2 - e1)))%Z
    by (rewrite Z2Nat.id; lia).
  rewrite pow2_shift. pose proof (pow2_pos e1) as Hp.
  assert (H1 : 1 <= IZR (2 ^ Z.of_nat (Z.to_nat (e2 - e1)))).
  { apply IZR_le.
    assert (0 < 2 ^ Z.of_nat (Z.to_nat (e2 - e1)))%Z
      by (apply Z.pow_pos_nonneg; lia).
    lia. }
  nra.
Qed.

(** The exponent found by the search. *)
Lemma ulp_exponent_from_spec x : forall n e0,
  (e0 <= ulp_exponent_from n e0 x <= e0 + Z.of_nat n)%Z /\
  ((e0 < ulp_exponent_from n e0 x)%Z ->
   pow2 (ulp_exponent_from n e0 x + 23) <= Rabs x) /\
  ((ulp_exponent_from n e0 x < e0 + Z.of_nat n)%Z ->
   Rabs x < pow2 (ulp_exponent_from n e0 x + 24)).
Proof.
  induction n as [| n IH]; intros e0.
  - cbn [ulp_exponent_from]. rewrite Z.add_0_r.
    split; [lia |]. split; intros H; lia.
  - cbn [ulp_exponent_from]. rewrite Nat2Z.inj_succ.
    destruct (Rlt_dec (Rabs x) (pow2 (e0 + 24))) as [Hlt | Hge].
    + split; [lia |]. split; [intros H; lia | intros _; exact Hlt].
    + destruct (IH (e0 + 1)%Z) as (Hb & Hlo & Hhi).
      set (e := ulp_exponent_from n (e0 + 1) x) in *.
      split; [lia |]. split.
      * intros _. destruct (Z.eq_dec e (e0 + 1)) as [E | N].
        -- rewrite E. replace (e0 + 1 + 23)%Z with (e0 + 24)%Z by lia. lra.
        -- apply Hlo. lia.
      * intros H. apply Hhi. lia.
Qed.

Lemma ulp_exponent_spec x :
  Rabs x < pow2 127 ->
  (-149 <= ulp_exponent x <= 103)%Z /\
  ((-149 < ulp_exponent x)%Z -> pow2 (ulp_exponent x + 23) <= Rabs x) /\
  Rabs x < pow2 (ulp_exponent x + 24).
Proof.
  intros Hx. unfold ulp_exponent.
  destruct (ulp_exponent_from_spec x 253 (-149)) as (Hb & Hlo & Hhi).
  set (e := ulp_exponent_from 253 (-149) x) in *.
  change (-149 + Z.of_nat 253)%Z with 104%Z in *.
  assert (He : (e <= 103)%Z).
  { destruct (Z_lt_le_dec e 104) as [H | H]; [lia |].
    assert (E : e = 104%Z) by lia.
    assert (H1 : pow2 (e + 23) <= Rabs x) by (apply Hlo; lia).
    rewrite E in H1. change (104 + 23)%Z with 127%Z in H1. lra. }
  split; [lia |]. split; [exact Hlo | apply Hhi; lia].
Qed.

(** The exponent is determined by the binade of [x]. *)
Lemma ulp_exponent_eq x e :
  (-149 <= e <= 103)%Z ->
  ((-149 < e)%Z -> pow2 (e + 23) <= Rabs x) -> Rabs x < pow2 (e + 24) ->
  ulp_exponent x = e.
Proof.
  intros He Hlo Hhi.
  assert (Hx : Rabs x < pow2 127).
  { apply Rlt_le_trans with (1 := Hhi). apply pow2_le. lia. }
  destruct (ulp_exponent_spec x Hx) as (Hb & Hlo' & Hhi').
  set (e' := ulp_exponent x) in *.
  destruct (Z.compare_spec e e') as [E | L | G]; [symmetry; exact E | |].
  - exfalso. assert (H1 : pow2 (e' + 23) <= Rabs x) by (apply Hlo'; lia).
    assert (H2 : pow2 (e + 24) <= pow2 (e' + 23)) by (apply pow2_le; lia).
    lra.
  - exfalso. assert (H1 : pow2 (e + 23) <= Rabs x) by (apply Hlo; lia).
    assert (H2 : pow2 (e' + 24) <= pow2 (e + 23)) by (apply pow2_le; lia).
    lra.
Qed.

(** The nearest integer is within a half. *)
Lemma nearest_even_error y : Rabs (IZR (nearest_even y) - y) <= 1 / 2.
Proof.
  unfold nearest_even. destruct (Int_part_bounds y) as [H1 H2].
  destruct (Rlt_dec (y - IZR (Int_part y)) (1 / 2)) as [Hl | Hl].
  - apply Rabs_le. lra.
  - destruct (Rgt_dec (y - IZR (Int_part y)) (1 / 2)) as [Hg | Hg].
    + rewrite plus_IZR. apply Rabs_le. lra.
    + destruct (Z.even (Int_part y)).
      * apply Rabs_le. lra.
      * rewrite plus_IZR. apply Rabs_le. lra.
Qed.

Lemma IZR_near_eq (a b : Z) : Rabs (IZR a - IZR b) < 1 -> a = b.
Proof.
  intros H. rewrite <- minus_IZR in H. apply Rabs_def2 in H.
  destruct H as [H1 H2].
  assert (Ha : (a - b < 1)%Z) by (apply lt_IZR; lra).
  assert (Hb : (-1 < a - b)%Z) by (apply lt_IZR; lra).
  lia.
Qed.

Lemma nearest_even_near y k : Rabs (y - IZR k) < 1 / 2 -> nearest_even y = k.
Proof.
  intros H. pose proof (nearest_even_error y) as He.
  apply IZR_near_eq.
  apply Rabs_def2 in H. apply Rabs_le_inv in He.
  apply Rabs_def1; lra.
Qed.

Lemma nearest_even_IZR k : nearest_even (IZR k) = k.
Proof.
  apply nearest_even_near. rewrite Rminus_diag, Rabs_R0. lra.
Qed.

Lemma nearest_even_tie k :
  nearest_even (IZR k + 1 / 2) = if Z.even k then k else (k + 1)%Z.
Proof.
  unfold nearest_even.
  assert (E : Int_part (IZR k + 1 / 2) = k).
  { symmetry. apply Int_part_spec. lra. }
  rewrite E.
  destruct (Rlt_dec (IZR k + 1 / 2 - IZR k) (1 / 2)); [lra |].
  destruct (Rgt_dec (IZR k + 1 / 2 - IZR k) (1 / 2)); [lra |].
  reflexivity.
Qed.

Lemma nearest_even_sign y :
  (0 <= y -> (0 <= nearest_even y)%Z) /\ (y <= 0 -> (nearest_even y <= 0)%Z).
Proof.
  unfold nearest_even. destruct (Int_part_bounds y) as [H1 H2].
  split; intros Hy.
  - assert (H0 : (0 <= Int_part y)%Z).
    { assert (H : (-1 < Int_part y)%Z)
        by (apply lt_IZR; change (IZR (-1)) with (-1); lra).
      lia. }
    destruct (Rlt_dec (y - IZR (Int_part y)) (1 / 2)); [exact H0 |].
    destruct (Rgt_dec (y - IZR (Int_part y)) (1 / 2)); [lia |].
    destruct (Z.even (Int_part y)); lia.
  - destruct (Rlt_dec (y - IZR (Int_part y)) (1 / 2)) as [Hl | Hl].
    + apply le_IZR. lra.
    + assert (H0 : (Int_part y < 0)%Z) by (apply lt_IZR; lra).
      destruct (Rgt_dec (y - IZR (Int_part y)) (1 / 2)); [lia |].
      destruct (Z.even (Int_part y)); lia.
Qed.

(** [to_float] at a number whose binade and nearest multiple of the unit
    in the last place are known. *)
Lemma to_float_eq x e k :
  (-149 <= e <= 103)%Z ->
  ((-149 < e)%Z -> pow2 (e + 23) <= Rabs x) -> Rabs x < pow2 (e + 24) ->
  nearest_even (x / pow2 e) = k ->
  Rabs (IZR k * pow2 e) < pow2 128 ->
  to_float x = Some (IZR k * pow2 e).
Proof.
  intros He Hlo Hhi Hk Hr. unfold to_float.
  rewrite (ulp_exponent_eq x e He Hlo Hhi), Hk.
  destruct (Rlt_dec (Rabs (IZR k * pow2 e)) (pow2 128)); [reflexivity |].
  contradiction.
Qed.

(** Below [2^127] rounding gives a number, within half a unit in the last
    place and on the same side of zero. *)
Lemma to_float_defined x :
  Rabs x < pow2 127 ->
  exists r, to_float x = Some r /\
    Rabs (r - x) <= pow2 (ulp_exponent x) / 2 /\
    (0 <= x -> 0 <= r) /\ (x <= 0 -> r <= 0).
Proof.
  intros Hx. destruct (ulp_exponent_spec x Hx) as (Hb & Hlo & Hhi).
  unfold to_float. set (e := ulp_exponent x) in *.
  pose proof (pow2_pos e) as Hp.
  set (y := x / pow2 e). set (k := nearest_even y).
  pose proof (nearest_even_error y) as Hk. fold k in Hk.
  assert (Hxy : x = y * pow2 e) by (unfold y; field; lra).
  assert (Hy : Rabs y < 16777216).
  { unfold y. unfold Rdiv. rewrite Rabs_mult, Rabs_inv.
    rewrite (Rabs_right (pow2 e)) by lra.
    replace (e + 24)%Z with (e + Z.of_nat 24)%Z in Hhi by reflexivity.
    rewrite pow2_shift in Hhi.
    change (IZR (2 ^ Z.of_nat 24)) with 16777216 in Hhi.
    apply Rmult_lt_reg_r with (pow2 e); [exact Hp |].
    rewrite Rmult_assoc, Rinv_l by lra. lra. }
  assert (Hkb : Rabs (IZR k) <= 16777216).
  { apply Rabs_def2 in Hy. apply Rabs_le_inv in Hk.
    assert (H1 : (k < 16777217)%Z) by (apply lt_IZR; lra).
    assert (H2 : (-16777217 < k)%Z) by (apply lt_IZR; lra).
    assert (H3 : (k <= 16777216)%Z) by lia.
    assert (H4 : (-16777216 <= k)%Z) by lia.
    apply IZR_le in H3, H4. apply Rabs_le. lra. }
  assert (Hr : Rabs (IZR k * pow2 e) < pow2 128).
  { rewrite Rabs_mult, (Rabs_right (pow2 e)) by lra.
    assert (H1 : 16777216 * pow2 e = pow2 (e + 24)).
    { replace (e + 24)%Z with (e + Z.of_nat 24)%Z by reflexivity.
      rewrite pow2_shift. reflexivity. }
    assert (H2 : pow2 (e + 24) <= pow2 127) by (apply pow2_le; lia).
    assert (H3 : pow2 127 < pow2 128).
    { replace 128%Z with (127 + 1)%Z by reflexivity. rewrite pow2_succ.
      pose proof (pow2_pos 127). lra. }
    assert (H4 : Rabs (IZR k) * pow2 e <= 16777216 * pow2 e)
      by (apply Rmult_le_compat_r; lra).
    lra. }
  destruct (Rlt_dec (Rabs (IZR k * pow2 e)) (pow2 128)) as [_ | Hn];
    [| contradiction].
  exists (IZR k * pow2 e). split; [reflexivity |]. split; [| split].
  - rewrite Hxy at 1.
    replace (IZR k * pow2 e - y * pow2 e) with ((IZR k - y) * pow2 e) by ring.
    rewrite Rabs_mult, (Rabs_right (pow2 e)) by lra.
    assert (H : Rabs (IZR k - y) * pow2 e <= 1 / 2 * pow2 e)
      by (apply Rmult_le_compat_r; lra).
    lra.
  - intros H0. assert (H1 : 0 <= y).
    { unfold y. apply Rmult_le_pos; [exact H0 |].
      left. apply Rinv_0_lt_compat. exact Hp. }
    assert (H2 : (0 <= k)%Z) by (apply (proj1 (nearest_even_sign y)), H1).
    apply IZR_le in H2. apply Rmult_le_pos; lra.
  - intros H0. assert (H1 : y <= 0).
    { unfold y. unfold Rdiv.
      assert (0 < / pow2 e) by (apply Rinv_0_lt_compat; exact Hp). nra. }
    assert (H2 : (k <= 0)%Z) by (apply (proj2 (nearest_even_sign y)), H1).
    apply IZR_le in H2. nra.
Qed.

(** Below [2^27] the rounding error is at most 4. *)
Lemma to_float_near x :
  Rabs x < 134217728 ->
  exists r, to_float x = Some r /\ Rabs (r - x) <= 4 /\
    (0 <= x -> 0 <= r) /\ (x <= 0 -> r <= 0).
Proof.
  intros Hx.
  assert (H27 : pow2 27 = 134217728) by reflexivity.
  assert (Hx' : Rabs x < pow2 127).
  { apply Rlt_le_trans with (pow2 27); [lra | apply pow2_le; lia]. }
  destruct (to_float_defined x Hx') as (r & Er & Herr & Hs).
  destruct (ulp_exponent_spec x Hx') as (Hb & Hlo & Hhi).
  exists r. split; [exact Er |]. split; [| exact Hs].
  assert (He : (ulp_exponent x <= 3)%Z).
  { destruct (Z_lt_le_dec 3 (ulp_exponent x)) as [H | H]; [| exact H].
    exfalso.
    assert (H1 : pow2 (ulp_exponent x + 23) <= Rabs x) by (apply Hlo; lia).
    assert (H2 : pow2 27 <= pow2 (ulp_exponent x + 23))
      by (apply pow2_le; lia).
    lra. }
  assert (H8 : pow2 (ulp_exponent x) <= pow2 3) by (apply pow2_le; exact He).
  assert (E8 : pow2 3 = 8) by reflexivity.
  lra.
Qed.

(** Integers of less than 24 bits are binary32 numbers. *)
Lemma to_float_IZR z :
  (Z.abs z < 2 ^ 24)%Z -> to_float (IZR z) = Some (IZR z).
Proof.
  intros Hz.
  assert (Hx : Rabs (IZR z) < pow2 24).
  { rewrite <- abs_IZR. rewrite pow2_nonneg_exp by lia. apply IZR_lt.
    exact Hz. }
  assert (Hx' : Rabs (IZR z) < pow2 127).
  { apply Rlt_le_trans with (1 := Hx). apply pow2_le. lia. }
  destruct (ulp_exponent_spec (IZR z) Hx') as (Hb & Hlo & Hhi).
  set (e := ulp_exponent (IZR z)) in *.
  assert (He : (e <= 0)%Z).
  { destruct (Z_lt_le_dec 0 e) as [H | H]; [| exact H]. exfalso.
    assert (H1 : pow2 (e + 23) <= Rabs (IZR z)) by (apply Hlo; lia).
    assert (H2 : pow2 24 <= pow2 (e + 23)) by (apply pow2_le; lia).
    lra. }
  pose proof (IZR_pow2_pos (- e) ltac:(lia)) as Hp.
  assert (Hq : IZR z / pow2 e = IZR (z * 2 ^ (- e))).
  { rewrite (pow2_neg_exp e He), mult_IZR. field. lra. }
  assert (Hres : IZR (z * 2 ^ (- e)) * pow2 e = IZR z).
  { rewrite (pow2_neg_exp e He), mult_IZR. field. lra. }
  rewrite <- Hres at 2.
  apply to_float_eq; [lia | exact Hlo | exact Hhi | |].
  - rewrite Hq. apply nearest_even_IZR.
  - rewrite Hres. apply Rlt_le_trans with (1 := Hx'). apply pow2_le. lia.
Qed.

(** In single precision, the rescaling at [dead_zone = 1.0f] is not a
    number for a magnitude of 1 (and does not compare equal to zero, so
    the mapper goes on with it) and is infinite for a larger one: the
    cases [fdiv] leaves undefined. *)
Example binary32_full_dead_zone :
  Binary32.apply_dead_zone Binary32.one Binary32.one = S754_nan /\
  SFeqb (Binary32.apply_dead_zone Binary32.one Binary32.one) Binary32.zero
    = false /\
  Binary32.apply_dead_zone Binary32.two Binary32.one = S754_infinity false.
Proof. repeat split. Qed.

(** In single precision the loop of [normalize_angle] leaves an angle of
    1e9 as it is, and so does not end: the step is the one [to_float]
    gives.  The threshold is [2^27]: from there the step still moves, from
    the next number on it does not. *)
Example binary32_angle_absorbed :
  let big := S754_finite false 15625000 6 in
  let threshold := S754_finite false 8388608 4 in
  let above := S754_finite false 8388609 4 in
  SFleb Binary32.two_pi big = true /\
  Binary32.wind_down_step big = big /\
  Binary32.wind_down_step threshold = S754_finite false 16777215 3 /\
  Binary32.wind_down_step above = above.
Proof. repeat split. Qed.

(** In single precision a blend of 3 with 3 by a factor of 0.1f is
    2.9999998, below 3. *)
Example binary32_blend_below :
  let tenth := S754_finite false 13421773 (-27) in
  let three := S754_finite false 12582912 (-22) in
  Binary32.blend tenth three three = S754_finite false 12582911 (-22) /\
  SFltb (Binary32.blend tenth three three) three = true.
Proof. repeat split. Qed.

End CFloatFacts.

(** ** The Drive Mapper *)

Module FuzzyFacts.

Import CInt CFloat CIntFacts CFloatFacts Fuzzy.
Local Open Scope R_scope.

(** *** Angle normalisation *)

Lemma two_pi_pos : 0 < 2 * M_PI.
Proof. unfold M_PI. pose proof PI_RGT_0. lra. Qed.

Lemma two_pi_bounds : 6 < 2 * M_PI <= 8.
Proof. unfold M_PI. pose proof PI2_3_2. pose proof PI_4. lra. Qed.

Lemma turns_enough a : Rabs a + 4 <= 2 * INR (turns a).
Proof.
  unfold turns. rewrite !S_INR.
  set (q := Rabs a / 2).
  assert (Hq : 0 <= q) by (unfold q; pose proof (Rabs_pos a); lra).
  destruct (archimed q) as [Hup _].
  assert (Hz : (0 <= up q)%Z) by (apply le_IZR; lra).
  rewrite INR_IZR_INZ, Z2Nat.id by exact Hz.
  unfold q in *. lra.
Qed.

Lemma wind_up_nonneg n a : 0 <= a -> wind_up (S n) a = Some a.
Proof.
  intros Ha. cbn [wind_up]. destruct (Rlt_dec a 0); [lra | reflexivity].
Qed.

Lemma wind_down_below n a : a < 2 * M_PI -> wind_down (S n) a = Some a.
Proof.
  intros Ha. cbn [wind_down].
  destruct (Rge_dec a (2 * M_PI)); [lra | reflexivity].
Qed.

(** An angle already in [0, 2 pi) goes through both loops untouched. *)
Lemma normalize_angle_id a :
  0 <= a < 2 * M_PI -> normalize_angle a = Some a.
Proof.
  intros [H0 H1]. unfold normalize_angle, turns.
  rewrite wind_up_nonneg by exact H0. cbn [bind].
  apply wind_down_below. exact H1.
Qed.

Lemma INR_pos_ge_1 n : 0 < INR n -> 1 <= INR n.
Proof.
  destruct n as [| n]; [cbn [INR]; lra |].
  intros _. rewrite S_INR. pose proof (pos_INR n). lra.
Qed.

(** Up to [2^27] either loop moves the angle by more than 2 at every turn
    in spite of the rounding, and so ends within the turns given. *)
Lemma wind_up_ends n : forall a,
  -134217728 <= a -> 2 <= 2 * INR n -> - a + 2 <= 2 * INR n ->
  exists theta, wind_up n a = Some theta /\ 0 <= theta /\
                (theta = a \/ theta <= 12).
Proof.
  pose proof two_pi_bounds as Hpi.
  induction n as [| n IH]; intros a Ha Hn Hfuel.
  - cbn [INR] in Hn. lra.
  - cbn [wind_up]. destruct (Rlt_dec a 0) as [Hneg | Hpos].
    + rewrite S_INR in Hfuel.
      destruct (to_float_near (a + 2 * M_PI)) as (r & Er & Herr & Hs & _).
      { apply Rabs_def1; lra. }
      apply Rabs_le_inv in Herr.
      rewrite Er. cbn [bind].
      assert (Hn1 : 1 <= INR n) by (apply INR_pos_ge_1; lra).
      destruct (IH r) as (theta & Et & H0 & Hor); try lra.
      exists theta. split; [exact Et |]. split; [exact H0 |].
      right. destruct Hor as [-> | H]; lra.
    + exists a. split; [reflexivity |]. split; [lra | left; reflexivity].
Qed.

Lemma wind_down_ends n : forall a,
  0 <= a <= 134217728 -> a + 2 <= 2 * INR n ->
  exists theta, wind_down n a = Some theta /\ 0 <= theta < 2 * M_PI.
Proof.
  pose proof two_pi_bounds as Hpi.
  induction n as [| n IH]; intros a Ha Hfuel.
  - cbn [INR] in Hfuel. lra.
  - cbn [wind_down]. destruct (Rge_dec a (2 * M_PI)) as [Hbig | Hsmall].
    + rewrite S_INR in Hfuel.
      destruct (to_float_near (a - 2 * M_PI)) as (r & Er & Herr & Hs & _).
      { apply Rabs_def1; lra. }
      apply Rabs_le_inv in Herr.
      rewrite Er. cbn [bind].
      assert (H0 : 0 <= r) by (apply Hs; lra).
      apply IH; lra.
    + exists a. split; [reflexivity | lra].
Qed.

(** [normalize_angle] returns, with an angle in [0, 2 pi), for every angle
    up to [2^27] in absolute value. *)
Lemma normalize_angle_ends a :
  Rabs a <= 134217728 ->
  exists theta, normalize_angle a = Some theta /\ 0 <= theta < 2 * M_PI.
Proof.
  intros Ha. unfold normalize_angle.
  pose proof (turns_enough a) as Hf. pose proof (Rabs_pos a) as Hp.
  assert (Hn : - a <= Rabs a)
    by (rewrite <- Rabs_Ropp; apply Rle_abs).
  apply Rabs_le_inv in Ha.
  destruct (wind_up_ends (turns a) a) as (t1 & E1 & H0 & Hor); try lra.
  rewrite E1. cbn [bind].
  pose proof (turns_enough t1) as Hf1.
  rewrite (Rabs_right t1) in Hf1 by lra.
  apply wind_down_ends; [| lra].
  destruct Hor as [-> | H]; lra.
Qed.

(** An angle that the rounded subtraction leaves as it is keeps the
    second loop turning for ever. *)
Lemma wind_down_absorbed a :
  2 * M_PI <= a -> to_float (a - 2 * M_PI) = Some a ->
  forall n, wind_down n a = None.
Proof.
  intros Ha Hstuck. induction n as [| n IH]; [reflexivity |].
  cbn [wind_down]. destruct (Rge_dec a (2 * M_PI)) as [_ | Hn]; [| lra].
  rewrite Hstuck. cbn [bind]. exact IH.
Qed.

Lemma normalize_angle_absorbed a :
  2 * M_PI <= a -> to_float (a - 2 * M_PI) = Some a ->
  normalize_angle a = None.
Proof.
  intros Ha Hstuck. pose proof two_pi_pos as Hp. unfold normalize_angle.
  unfold turns at 1. rewrite wind_up_nonneg by lra. cbn [bind].
  apply wind_down_absorbed; assumption.
Qed.

(** 1e9 is such an angle: it is 15625000 * 2^6, and 1e9 - 2 pi is nearer
    to it than to the binary32 number below, 1e9 - 64. *)
Lemma to_float_absorbs_at_1e9 :
  to_float (1000000000 - 2 * M_PI) = Some 1000000000.
Proof.
  pose proof two_pi_bounds as Hpi.
  assert (E6 : pow2 6 = 64) by reflexivity.
  assert (E29 : pow2 (6 + 23) = 536870912) by reflexivity.
  assert (E30 : pow2 (6 + 24) = 1073741824) by reflexivity.
  assert (Habs : Rabs (1000000000 - 2 * M_PI) = 1000000000 - 2 * M_PI)
    by (apply Rabs_right; lra).
  replace (Some 1000000000) with (Some (IZR 15625000 * pow2 6))
    by (rewrite E6; f_equal; lra).
  apply to_float_eq.
  - lia.
  - intros _. rewrite Habs, E29. lra.
  - rewrite Habs, E30. lra.
  - apply nearest_even_near. rewrite E6. apply Rabs_def1; lra.
  - rewrite E6. replace (15625000 * 64) with 1000000000 by lra.
    rewrite Rabs_right by lra.
    assert (H : pow2 30 <= pow2 128) by (apply pow2_le; lia).
    assert (E : pow2 30 = 1073741824) by reflexivity.
    lra.
Qed.

(** *** Unit-range speeds become duties within the limits *)

Lemma clamp_unit v : -1 <= clamp v (-1) 1 <= 1.
Proof.
  unfold clamp. destruct (Rlt_dec v (-1)); [lra |].
  destruct (Rgt_dec v 1); lra.
Qed.

Lemma to_duties_bounded ls rs c :
  (0 <= max_duty c <= INT16_MAX)%Z -> -1 <= ls <= 1 -> -1 <= rs <= 1 ->
  exists out, to_duties ls rs c = Some out /\
    (- max_duty c <= left_duty out <= max_duty c)%Z /\
    (- max_duty c <= right_duty out <= max_duty c)%Z.
Proof.
  intros Hm Hl Hr.
  assert (HM : 0 <= IZR (max_duty c)) by (apply IZR_le; lia).
  destruct (cast_int16_bounded (ls * IZR (max_duty c)) (max_duty c) Hm)
    as [l [El Bl]]; [nra |].
  destruct (cast_int16_bounded (rs * IZR (max_duty c)) (max_duty c) Hm)
    as [r [Er Br]]; [nra |].
  exists {| left_duty := l; right_duty := r |}.
  unfold to_duties. rewrite El. simpl. rewrite Er. simpl. auto.
Qed.

Lemma apply_dead_zone_unit mag dz :
  0 <= dz < 1 -> 0 <= mag <= 1 ->
  exists m, apply_dead_zone mag dz = Some m /\ 0 <= m <= 1.
Proof.
  intros Hdz Hmag. unfold apply_dead_zone.
  destruct (Rlt_dec mag dz) as [Hlt | Hge].
  - exists 0. split; [reflexivity | lra].
  - rewrite fdiv_nonzero by lra.
    exists ((mag - dz) / (1 - dz)). split; [reflexivity |].
    assert (Hd : 0 < / (1 - dz)) by (apply Rinv_0_lt_compat; lra).
    unfold Rdiv. split.
    + apply Rmult_le_pos; lra.
    + replace 1 with ((1 - dz) * / (1 - dz)) at 2 by (field; lra).
      apply Rmult_le_compat_r; lra.
Qed.

Lemma apply_curve_unit m c :
  0 <= m <= 1 -> exists m', apply_curve m c = Some m' /\ 0 <= m' <= 1.
Proof.
  intros Hm. destruct c; simpl.
  - exists m. split; [reflexivity | lra].
  - exists (m * m). split; [reflexivity | nra].
  - exists (m * m * m). split; [reflexivity |].
    assert (0 <= m * m <= 1) by nra. nra.
  - unfold sqrtf. destruct (Rlt_dec m 0); [lra |].
    exists (sqrt m). split; [reflexivity |]. split.
    + apply sqrt_pos.
    + rewrite <- sqrt_1. apply sqrt_le_1; lra.
Qed.

Lemma car_speeds_unit s k tf m :
  -1 <= s <= 1 -> 0 <= k <= 1 -> 0 <= tf <= 1 -> 0 <= m <= 1 ->
  -1 <= s * m <= 1 /\ -1 <= s * (1 - k * tf) * m <= 1.
Proof.
  intros Hs Hk Htf Hm.
  assert (Hr : 0 <= k * tf <= 1) by nra.
  assert (Hsr : -1 <= s * (1 - k * tf) <= 1) by nra.
  split; nra.
Qed.

(** The mode functions on a normalised angle. *)
Lemma process_mode_bounded theta m c :
  0 <= theta < 2 * M_PI ->
  0 <= turn_factor c <= 1 -> (0 <= max_duty c <= INT16_MAX)%Z ->
  0 <= m <= 1 ->
  exists out, process_mode theta m c = Some out /\
    (- max_duty c <= left_duty out <= max_duty c)%Z /\
    (- max_duty c <= right_duty out <= max_duty c)%Z.
Proof.
  intros Hth Htf Hmax Hm. unfold process_mode. destruct (mode c).
  - unfold process_arcade_mode.
    apply to_duties_bounded; [exact Hmax | apply clamp_unit ..].
  - unfold process_tank_mode.
    apply to_duties_bounded; [exact Hmax | apply clamp_unit ..].
  - unfold process_car_mode.
    rewrite (normalize_angle_id theta Hth). cbn [bind].
    pose proof (SIN_bound theta) as Hs.
    assert (Hk : 0 <= Rabs (cos theta) <= 1).
    { split; [apply Rabs_pos |]. apply Rabs_le. apply COS_bound. }
    destruct (car_speeds_unit (sin theta) (Rabs (cos theta))
                (turn_factor c) m Hs Hk Htf Hm) as [H1 H2].
    destruct (Rgt_dec (cos theta) 0);
      apply to_duties_bounded; assumption.
  - unfold process_smooth_mode.
    apply to_duties_bounded; [exact Hmax | apply clamp_unit ..].
Qed.

(** *** The minimum-duty floor and the inversion *)

Lemma apply_min_duty_within d lo hi :
  (0 <= lo <= hi)%Z -> (hi <= INT16_MAX)%Z -> (- hi <= d <= hi)%Z ->
  (Z.abs (apply_min_duty d lo) <= hi)%Z /\
  (apply_min_duty d lo <> 0%Z -> (lo <= Z.abs (apply_min_duty d lo))%Z).
Proof.
  intros Hlo Hhi Hd. unfold apply_min_duty, INT16_MAX in *.
  destruct (Z.eqb_spec d 0) as [E0 | N0]; [lia |].
  rewrite !Z.gtb_ltb.
  destruct (Z.ltb_spec 0 d); destruct (Z.ltb_spec d lo); simpl; try lia;
    destruct (Z.ltb_spec d 0); destruct (Z.ltb_spec (- lo) d); simpl;
    try lia;
    rewrite wrap16_small by int16_range;
    lia.
Qed.

Lemma inversion_within c d (inv : bool) :
  (max_duty c <= INT16_MAX)%Z -> duty_within c d ->
  duty_within c (if inv then wrap16 (- d) else d).
Proof.
  intros Hmax [Hd1 Hd2]. destruct inv; [| split; assumption].
  unfold INT16_MAX in Hmax.
  rewrite wrap16_small by int16_range.
  unfold duty_within. rewrite Z.abs_opp. split; [exact Hd1 |].
  intros Hn. apply Hd2. lia.
Qed.

(** *** Claims about the Drive Mapper *)

(** C3, as amended: for every configuration that satisfies the data-model
    invariants with a dead zone strictly below 1 (and a [max_duty] that an
    [int16_t] holds), every angle of at most [2^27] radians in absolute
    value (the documented angles, 0 to 2 pi, are among them) and every
    magnitude in [0,1], the mapper returns a command, both duties are at
    most [max_duty] in absolute value, and every non-zero duty is at least
    [min_duty] in absolute value. *)
Theorem mapper_output_within_limits c angle magnitude :
  config_invariant c -> dead_zone c < 1 -> in_int16 (max_duty c) ->
  Rabs angle <= 134217728 -> 0 <= magnitude <= 1 ->
  exists out,
    fuzzy_control_process c angle magnitude = Some out /\ command_within c out.
Proof.
  intros (Hdz & Htf & Hduty) Hlt [_ Hmax] Hangle Hmag.
  assert (HM : (0 <= max_duty c <= INT16_MAX)%Z) by lia.
  unfold fuzzy_control_process.
  destruct (apply_dead_zone_unit magnitude (dead_zone c)) as [m [Em Hm]];
    [lra | exact Hmag |].
  rewrite Em. cbn [bind]. unfold process_rescaled.
  destruct (Req_dec_T m 0) as [Hz | Hnz].
  - exists {| left_duty := 0; right_duty := 0 |}. split; [reflexivity |].
    split; split; cbn [left_duty right_duty]; lia.
  - destruct (apply_curve_unit m (curve c) Hm) as [m' [Ec Hm']].
    rewrite Ec. cbn [bind].
    destruct (normalize_angle_ends angle Hangle) as (theta & Et & Hth).
    rewrite Et. cbn [bind].
    destruct (process_mode_bounded theta m' c Hth Htf HM Hm')
      as [out [Eo [Bl Br]]].
    rewrite Eo. cbn [bind]. eexists. split; [reflexivity |].
    split; cbn [left_duty right_duty]; apply inversion_within; try lia;
      apply apply_min_duty_within; lia.
Qed.

(** C3, witness: the "normal" preset, stick fully forward. *)
Lemma mapper_output_within_limits_witness :
  (config_invariant normal_config /\ dead_zone normal_config < 1 /\
   in_int16 (max_duty normal_config) /\ Rabs (PI / 2) <= 134217728 /\
   0 <= 1 <= 1) /\
  exists out,
    fuzzy_control_process normal_config (PI / 2) 1 = Some out /\
    command_within normal_config out.
Proof.
  assert (H : config_invariant normal_config /\ dead_zone normal_config < 1 /\
              in_int16 (max_duty normal_config) /\
              Rabs (PI / 2) <= 134217728 /\ 0 <= 1 <= 1).
  { unfold config_invariant, in_int16, INT16_MIN, INT16_MAX.
    cbn [normal_config fuzzy_control_preset_normal run_assignments
         preset_normal_assignments fold_left set_mode set_curve
         set_dead_zone set_turn_factor set_max_duty set_min_duty
         dead_zone turn_factor max_duty min_duty].
    pose proof PI_RGT_0. pose proof PI_4.
    assert (Rabs (PI / 2) <= 134217728) by (apply Rabs_le; lra).
    repeat split; try lra; try lia. }
  split; [exact H |].
  destruct H as (H1 & H2 & H3 & H4 & H5).
  exact (mapper_output_within_limits normal_config (PI / 2) 1 H1 H2 H3 H4 H5).
Defined.

(** C3, as stated, fails at the boundary the invariants allow: with
    [dead_zone = 1] and the stick at full deflection the rescaling divides
    zero by zero and the mapper has no defined output.  It also fails for
    an angle that the loops of [normalize_angle] cannot bring back: under
    the "normal" preset, at an angle of 1e9 and full deflection, the mapper
    does not return. *)
Lemma mapper_undefined_at_full_dead_zone :
  ((config_invariant (set_dead_zone 1 normal_config) /\
    in_int16 (max_duty (set_dead_zone 1 normal_config)) /\ 0 <= 1 <= 1) /\
   fuzzy_control_process (set_dead_zone 1 normal_config) 0 1 = None) /\
  ((config_invariant normal_config /\ dead_zone normal_config < 1 /\
    in_int16 (max_duty normal_config) /\ 0 <= 1 <= 1) /\
   fuzzy_control_process normal_config 1000000000 1 = None).
Proof.
  split; split.
  - unfold config_invariant, in_int16, INT16_MIN, INT16_MAX. simpl.
    repeat split; try lra; try lia.
  - unfold fuzzy_control_process, apply_dead_zone. simpl.
    destruct (Rlt_dec 1 1) as [H | _]; [lra |].
    replace (1 - 1) with 0 by lra. rewrite fdiv_zero. reflexivity.
  - unfold config_invariant, in_int16, INT16_MIN, INT16_MAX. simpl.
    repeat split; try lra; try lia.
  - assert (Hn : normalize_angle 1000000000 = None).
    { pose proof two_pi_bounds.
      apply normalize_angle_absorbed;
        [lra | apply to_float_absorbs_at_1e9]. }
    unfold fuzzy_control_process, apply_dead_zone.
    cbn [normal_config fuzzy_control_preset_normal run_assignments
         preset_normal_assignments fold_left fuzzy_control_init
         set_mode set_curve set_dead_zone set_turn_factor set_max_duty
         set_min_duty dead_zone curve].
    destruct (Rlt_dec 1 0.08) as [H | _]; [lra |].
    rewrite fdiv_nonzero by lra. cbn [bind].
    replace ((1 - 0.08) / (1 - 0.08)) with 1 by lra.
    unfold process_rescaled. destruct (Req_dec_T 1 0) as [H | _]; [lra |].
    cbn [apply_curve curve bind]. rewrite Hn. reflexivity.
Qed.

(** C4: a magnitude strictly below the dead zone gives exactly (0,0),
    whatever the angle and the mode; any other magnitude is replaced by
    (magnitude - dead_zone) / (1 - dead_zone), and it is this quotient that
    goes through curve shaping and mode mapping. *)
Theorem dead_zone_rejection_and_rescaling c angle magnitude :
  (magnitude < dead_zone c ->
     fuzzy_control_process c angle magnitude = Some stop_command) /\
  (dead_zone c <= magnitude ->
     fuzzy_control_process c angle magnitude =
       (m <- fdiv (magnitude - dead_zone c) (1 - dead_zone c);;
        process_rescaled c angle m)).
Proof.
  unfold fuzzy_control_process, apply_dead_zone. split; intros H.
  - destruct (Rlt_dec magnitude (dead_zone c)) as [_ | Hn]; [| lra].
    simpl. unfold process_rescaled.
    destruct (Req_dec_T 0 0) as [_ | Hn]; [reflexivity | lra].
  - destruct (Rlt_dec magnitude (dead_zone c)) as [Hl | _]; [lra |].
    reflexivity.
Qed.

(** C4, witness: under the "normal" preset (dead zone 0.08) a magnitude of
    0.05 is rejected and a magnitude of 0.54 is rescaled to 0.5. *)
Lemma dead_zone_rejection_and_rescaling_witness :
  (0.05 < dead_zone normal_config /\
   fuzzy_control_process normal_config 0 0.05 = Some stop_command) /\
  (dead_zone normal_config <= 0.54 /\
   fuzzy_control_process normal_config 0 0.54 =
     process_rescaled normal_config 0 0.5).
Proof.
  split; split; try (simpl; lra).
  - apply (dead_zone_rejection_and_rescaling normal_config 0 0.05). simpl. lra.
  - destruct (dead_zone_rejection_and_rescaling normal_config 0 0.54)
      as [_ H].
    rewrite H by (simpl; lra). simpl.
    rewrite fdiv_nonzero by lra. simpl.
    replace ((0.54 - 0.08) / (1 - 0.08)) with 0.5 by lra. reflexivity.
Defined.

(** C8, as amended: in Car mode, with shaped magnitude [m] and normalised
    angle [theta], let [base = m * sin theta] and
    [reduction = |cos theta| * turn_factor].  The wheel on the side of the
    turn direction, the inner wheel, is the one slowed down: when
    [cos theta] is positive (stick to the right, angle 0 being "right" in
    the joystick's coordinates) the right wheel's duty is
    [base * (1 - reduction)] scaled by [max_duty] and the left wheel's is
    [base] scaled by [max_duty]; otherwise the two are exchanged.  This is
    so for every angle at which the normalisation returns; at the others
    the function does not return either. *)
Theorem car_mode_slows_one_wheel c angle m :
  (normalize_angle angle = None -> process_car_mode angle m c = None) /\
  (forall theta, normalize_angle angle = Some theta ->
     let base := m * sin theta in
     let reduction := Rabs (cos theta) * turn_factor c in
     (cos theta > 0 ->
        process_car_mode angle m c =
          to_duties base (base * (1 - reduction)) c) /\
     (cos theta <= 0 ->
        process_car_mode angle m c =
          to_duties (base * (1 - reduction)) base c)).
Proof.
  unfold process_car_mode. split.
  - intros ->. reflexivity.
  - intros theta ->. cbv zeta. cbn [bind].
    split; intros H; destruct (Rgt_dec (cos theta) 0) as [Hp | Hn];
      try lra; f_equal; ring.
Qed.

(** C8, witness: the "precision" preset (Car mode, turn factor 0.6) with
    the stick 60 degrees above "right", then 60 degrees above "left". *)
Lemma car_mode_slows_one_wheel_witness :
  (normalize_angle (PI / 3) = Some (PI / 3) /\ cos (PI / 3) > 0 /\
   process_car_mode (PI / 3) 1 precision_config =
     to_duties (1 * sin (PI / 3))
       (1 * sin (PI / 3) * (1 - Rabs (cos (PI / 3)) * 0.6))
       precision_config) /\
  (normalize_angle (2 * (PI / 3)) = Some (2 * (PI / 3)) /\
   cos (2 * (PI / 3)) <= 0 /\
   process_car_mode (2 * (PI / 3)) 1 precision_config =
     to_duties
       (1 * sin (2 * (PI / 3)) * (1 - Rabs (cos (2 * (PI / 3))) * 0.6))
       (1 * sin (2 * (PI / 3))) precision_config).
Proof.
  pose proof PI_RGT_0 as Hpi.
  assert (N0 : normalize_angle (PI / 3) = Some (PI / 3))
    by (apply normalize_angle_id; unfold M_PI; lra).
  assert (N1 : normalize_angle (2 * (PI / 3)) = Some (2 * (PI / 3)))
    by (apply normalize_angle_id; unfold M_PI; lra).
  assert (H0 : cos (PI / 3) > 0) by (rewrite cos_PI3; lra).
  assert (H1 : cos (2 * (PI / 3)) <= 0) by (rewrite cos_2PI3; lra).
  split; (split; [assumption |]); (split; [assumption |]).
  - exact (proj1 (proj2 (car_mode_slows_one_wheel precision_config
                           (PI / 3) 1) (PI / 3) N0) H0).
  - exact (proj2 (proj2 (car_mode_slows_one_wheel precision_config
                           (2 * (PI / 3)) 1) (2 * (PI / 3)) N1) H1).
Defined.

(** C8, as stated, fails on the side: under the "precision" preset with
    the stick at full deflection, 60 degrees above "right", the turn is to
    the right and the wheel away from it is the left one.  The left wheel
    gets [base] unmodified, a duty of 129; it is the right wheel, on the
    side of the turn, that gets [base * (1 - reduction)], a duty of 90.
    The last conjunct is the command the claim describes. *)
Lemma car_mode_slows_inner_wheel :
  let theta := PI / 3 in
  let base := 1 * sin theta in
  let reduction := Rabs (cos theta) * turn_factor precision_config in
  normalize_angle (PI / 3) = Some theta /\
  cos theta > 0 /\
  process_car_mode (PI / 3) 1 precision_config =
    Some {| left_duty := 129; right_duty := 90 |} /\
  to_duties (base * (1 - reduction)) base precision_config =
    Some {| left_duty := 90; right_duty := 129 |}.
Proof.
  pose proof PI_RGT_0 as Hpi.
  assert (Hs : 1.732 < sqrt 3 < 1.7321).
  { pose proof (sqrt_sqrt 3 ltac:(lra)). pose proof (sqrt_pos 3).
    split; nra. }
  assert (Hn : normalize_angle (PI / 3) = Some (PI / 3))
    by (apply normalize_angle_id; unfold M_PI; lra).
  assert (Hfull : trunc (1 * (sqrt 3 / 2) * IZR 150) = 129%Z).
  { apply trunc_between; [lia |]. lra. }
  assert (Hred : trunc (1 * (sqrt 3 / 2) * (1 - 1 / 2 * 0.6) * IZR 150) = 90%Z).
  { apply trunc_between; [lia |]. lra. }
  assert (Hfull' : trunc (sqrt 3 / 2 * 1 * IZR 150) = 129%Z).
  { apply trunc_between; [lia |]. lra. }
  assert (Hred' : trunc (sqrt 3 / 2 * (1 - 1 / 2 * 0.6) * 1 * IZR 150) = 90%Z).
  { apply trunc_between; [lia |]. lra. }
  cbv zeta. split; [exact Hn |]. rewrite sin_PI3, cos_PI3.
  rewrite (Rabs_right (1 / 2)) by lra.
  split; [lra |]. split.
  - unfold process_car_mode. rewrite Hn. cbn [bind].
    rewrite sin_PI3, cos_PI3.
    rewrite (Rabs_right (1 / 2)) by lra.
    destruct (Rgt_dec (1 / 2) 0) as [_ | Hc]; [| lra].
    unfold to_duties, cast_int16.
    change (max_duty precision_config) with 150%Z.
    change (turn_factor precision_config) with 0.6.
    rewrite Hfull', Hred'. reflexivity.
  - unfold to_duties, cast_int16.
    change (max_duty precision_config) with 150%Z.
    change (turn_factor precision_config) with 0.6.
    rewrite Hfull, Hred. reflexivity.
Qed.

(** C10: the rescaling divides by [1 - dead_zone] unguarded.  Within the
    range [0,1] that the data model allows, it has a defined result for
    every magnitude exactly when [dead_zone < 1]; at [dead_zone = 1] the
    division, and with it the mapper's output, is undefined for every
    magnitude that is not below the dead zone. *)
Theorem dead_zone_division_unguarded dz :
  0 <= dz <= 1 ->
  ((forall magnitude, exists m, apply_dead_zone magnitude dz = Some m) <->
   dz < 1) /\
  (dz = 1 ->
   forall magnitude, dz <= magnitude ->
     apply_dead_zone magnitude dz = None /\
     forall c angle, dead_zone c = dz ->
       fuzzy_control_process c angle magnitude = None).
Proof.
  intros Hdz.
  assert (Hone : forall magnitude, 1 <= magnitude ->
                   apply_dead_zone magnitude 1 = None).
  { intros magnitude Hm. unfold apply_dead_zone.
    destruct (Rlt_dec magnitude 1) as [Hl | _]; [lra |].
    replace (1 - 1) with 0 by lra. apply fdiv_zero. }
  split; [split |].
  - intros Htotal. destruct (Req_dec_T dz 1) as [E | N]; [| lra].
    subst dz. destruct (Htotal 1) as [m Em].
    rewrite Hone in Em by lra. discriminate.
  - intros Hlt magnitude. unfold apply_dead_zone.
    destruct (Rlt_dec magnitude dz).
    + exists 0. reflexivity.
    + rewrite fdiv_nonzero by lra. eexists. reflexivity.
  - intros E magnitude Hm. subst dz. split; [apply Hone; exact Hm |].
    intros c angle Ec. unfold fuzzy_control_process.
    rewrite Ec, Hone by exact Hm. reflexivity.
Qed.

(** C10, witness: at [dead_zone = 1] a full deflection has no defined
    rescaling. *)
Lemma dead_zone_division_unguarded_witness :
  0 <= 1 <= 1 /\ apply_dead_zone 1 1 = None /\
  fuzzy_control_process (set_dead_zone 1 normal_config) 0 1 = None.
Proof.
  assert (H : 0 <= 1 <= 1) by lra.
  split; [exact H |].
  destruct (proj2 (dead_zone_division_unguarded 1 H) eq_refl 1 (Rle_refl 1))
    as [H1 H2].
  split; [exact H1 |].
  apply H2. reflexivity.
Defined.

(** C7, as amended: each of the four presets assigns the six fields of its
    row of the preset table (mode, curve, dead zone, turn factor, maximum
    and minimum duty) and leaves the two inversion flags as they were. *)
Theorem presets_assign_table_row c :
  fuzzy_control_preset_gentle c =
    {| mode := FUZZY_MODE_SMOOTH; curve := FUZZY_CURVE_QUADRATIC;
       dead_zone := 0.10; turn_factor := 0.5;
       max_duty := 180; min_duty := 40;
       invert_left := invert_left c; invert_right := invert_right c |} /\
  fuzzy_control_preset_normal c =
    {| mode := FUZZY_MODE_ARCADE; curve := FUZZY_CURVE_QUADRATIC;
       dead_zone := 0.08; turn_factor := 0.7;
       max_duty := 255; min_duty := 35;
       invert_left := invert_left c; invert_right := invert_right c |} /\
  fuzzy_control_preset_aggressive c =
    {| mode := FUZZY_MODE_TANK; curve := FUZZY_CURVE_LINEAR;
       dead_zone := 0.05; turn_factor := 1.0;
       max_duty := 255; min_duty := 30;
       invert_left := invert_left c; invert_right := invert_right c |} /\
  fuzzy_control_preset_precision c =
    {| mode := FUZZY_MODE_CAR; curve := FUZZY_CURVE_CUBIC;
       dead_zone := 0.08; turn_factor := 0.6;
       max_duty := 150; min_duty := 40;
       invert_left := invert_left c; invert_right := invert_right c |}.
Proof. repeat split. Qed.

(** C7, as stated, fails: a preset does not replace every field.  After
    both motors were set inverted under the "gentle" preset, the "normal"
    preset leaves both inversion flags set, while from the initial
    configuration it leaves them clear: the result is not the preset's row
    alone.  Nor is the replacement made as a whole: the fields are assigned
    one after another, and after the first three assignments of "normal"
    the configuration has the mode and dead zone of "normal" with the turn
    factor and duty limits of "gentle". *)
Lemma preset_keeps_inversion_flags :
  let gentle := fuzzy_control_preset_gentle fuzzy_control_init in
  let inverted := fuzzy_control_set_inversion true true gentle in
  let midway := run_assignments (firstn 3 preset_normal_assignments) gentle in
  (invert_left (fuzzy_control_preset_normal inverted) = true /\
   invert_right (fuzzy_control_preset_normal inverted) = true /\
   invert_left (fuzzy_control_preset_normal fuzzy_control_init) = false /\
   invert_right (fuzzy_control_preset_normal fuzzy_control_init) = false) /\
  (mode midway = FUZZY_MODE_ARCADE /\ dead_zone midway = 0.08 /\
   turn_factor midway = 0.5 /\
   max_duty midway = 180%Z /\ min_duty midway = 40%Z).
Proof. repeat split. Qed.

(** The specification's example: angle pi/2 and magnitude 1 under the
    "normal" preset give 255 on both sides. *)
Example normal_full_forward :
  fuzzy_control_process normal_config (PI / 2) 1 =
    Some {| left_duty := 255; right_duty := 255 |}.
Proof.
  pose proof PI_RGT_0 as Hpi.
  unfold fuzzy_control_process, apply_dead_zone. simpl.
  destruct (Rlt_dec 1 0.08) as [H | _]; [lra |].
  rewrite fdiv_nonzero by lra. simpl.
  replace ((1 - 0.08) / (1 - 0.08)) with 1 by lra.
  unfold process_rescaled. destruct (Req_dec_T 1 0) as [H | _]; [lra |].
  simpl. rewrite normalize_angle_id by (unfold M_PI; lra).
  unfold process_mode, process_arcade_mode. simpl.
  rewrite sin_PI2, cos_PI2.
  replace (1 * 1 * 1 + 1 * 1 * 0 * 0.7) with 1 by lra.
  replace (1 * 1 * 1 - 1 * 1 * 0 * 0.7) with 1 by lra.
  assert (Hc : clamp 1 (-1) 1 = 1).
  { unfold clamp. destruct (Rlt_dec 1 (-1)); [lra |].
    destruct (Rgt_dec 1 1); [lra | reflexivity]. }
  rewrite Hc. unfold to_duties, cast_int16.
  rewrite Rmult_1_l, trunc_IZR. reflexivity.
Qed.

End FuzzyFacts.

(** ** Odometry *)

Module EncoderFacts.

Import CInt CFloat CIntFacts CFloatFacts Encoder.
Local Open Scope R_scope.



(** A successful reading after a positive elapsed time is measured. *)
Lemma sample_wheel_measured now c circ e :
  (0 < delta_time_us now e)%Z ->
  sample_wheel now (Some c) circ e =
    {| last_count := c; last_time_us := now;
       rpm := IZR (delta_count c e) / ENCODER_CPR /
              (IZR (delta_time_us now e) / 60000000.0);
       distance_m :=
         distance_m e + IZR (delta_count c e) / ENCODER_CPR * circ |}.
Proof.
  intros Ht. apply Z.gtb_lt in Ht. unfold sample_wheel. rewrite Ht.
  reflexivity.
Qed.




Lemma encoder_update_circumference now rl rr st :
  wheel_circumference_m (encoder_update now rl rr st) =
    wheel_circumference_m st.
Proof. reflexivity. Qed.


(** *** Claims about the odometry *)

(** C5, as amended: a successful clear of a wheel sets that wheel's count
    baseline and cumulative distance to zero; its rpm and its last sample
    time keep the values they had, and the other wheel is untouched. *)
Theorem clear_resets_baseline_and_distance st :
  let cl := fst (encoder_clear_left ESP_OK st) in
  let cr := fst (encoder_clear_right ESP_OK st) in
  (last_count (left_encoder cl) = 0%Z /\
   distance_m (left_encoder cl) = 0 /\
   rpm (left_encoder cl) = rpm (left_encoder st) /\
   last_time_us (left_encoder cl) = last_time_us (left_encoder st) /\
   right_encoder cl = right_encoder st /\
   snd (encoder_clear_left ESP_OK st) = ESP_OK) /\
  (last_count (right_encoder cr) = 0%Z /\
   distance_m (right_encoder cr) = 0 /\
   rpm (right_encoder cr) = rpm (right_encoder st) /\
   last_time_us (right_encoder cr) = last_time_us (right_encoder st) /\
   left_encoder cr = left_encoder st /\
   snd (encoder_clear_right ESP_OK st) = ESP_OK).
Proof. repeat split. Qed.

(** C5, as stated, fails: after one sample that measured 450 rpm on the
    left wheel (1000 counts in 100 ms), a successful clear of that wheel
    zeroes the baseline and the distance and still reports 450 rpm. *)
Lemma clear_leaves_stale_rpm :
  let st := encoder_update 100000 (Some 1000%Z) (Some 1000%Z)
              (encoder_init 0 0) in
  let cleared := fst (encoder_clear_left ESP_OK st) in
  snd (encoder_clear_left ESP_OK st) = ESP_OK /\
  last_count (left_encoder cleared) = 0%Z /\
  encoder_get_distance_left cleared = 0 /\
  encoder_get_rpm_left cleared = 450.
Proof.
  assert (Ht : delta_time_us 100000 (init_instance 0) = 100000%Z)
    by (vm_compute; reflexivity).
  assert (Hc : delta_count 1000 (init_instance 0) = 1000%Z)
    by (vm_compute; reflexivity).
  repeat split.
  unfold encoder_get_rpm_left, encoder_clear_left, encoder_update,
    encoder_init, with_left, with_right, clear_instance.
  cbn [fst left_encoder right_encoder wheel_circumference_m rpm].
  rewrite sample_wheel_measured by (rewrite Ht; reflexivity).
  cbn [rpm]. rewrite Ht, Hc.
  unfold ENCODER_CPR, ENCODER_PPR, ENCODER_PULSES_PER_3_REVS. lra.
Qed.




(** The shared block, when the elapsed time is not positive. *)
Lemma sample_wheel_skipped now reading circ e :
  (delta_time_us now e <= 0)%Z ->
  sample_skipped now reading e (sample_wheel now reading circ e) /\
  forall c, reading = Some c ->
    next_deltas_from c now (sample_wheel now reading circ e).
Proof.
  intros Ht. unfold sample_skipped, next_deltas_from, sample_wheel.
  destruct reading as [c |].
  - replace (delta_time_us now e >? 0)%Z with false
      by (symmetry; rewrite Z.gtb_ltb; apply Z.ltb_ge; exact Ht).
    cbn [rpm distance_m last_count last_time_us].
    split.
    + split; [reflexivity |]. split; [reflexivity |].
      intros c' [= <-]. split; reflexivity.
    + intros c' [= <-] c2 now2. split; reflexivity.
  - split.
    + split; [reflexivity |]. split; [reflexivity |]. intros c [=].
    + intros c [=].
Qed.

(** C9: in a sampling call that finds a wheel's elapsed time non-positive,
    that wheel's rpm and cumulative distance keep their values, while a
    successful count reading and the current time still become its
    [last_count] and [last_time_us]: the next call's deltas are taken from
    them and leave the skipped interval out. *)
Theorem nonpositive_elapsed_time_skips_sample now reading_left reading_right st :
  let st' := encoder_update now reading_left reading_right st in
  ((delta_time_us now (left_encoder st) <= 0)%Z ->
     sample_skipped now reading_left (left_encoder st) (left_encoder st') /\
     forall c, reading_left = Some c ->
       next_deltas_from c now (left_encoder st')) /\
  ((delta_time_us now (right_encoder st) <= 0)%Z ->
     sample_skipped now reading_right (right_encoder st) (right_encoder st') /\
     forall c, reading_right = Some c ->
       next_deltas_from c now (right_encoder st')).
Proof.
  intros st'. unfold st', encoder_update, with_left, with_right.
  cbn [left_encoder right_encoder wheel_circumference_m].
  split; intros Ht; apply sample_wheel_skipped; exact Ht.
Qed.

(** C9, witness: a second call at the very clock value of the first.  The
    first call measured 450 rpm on the left wheel from 1000 counts; the
    second reads 1600 counts, keeps the rpm and the distance, and moves the
    baseline to 1600 counts. *)
Lemma nonpositive_elapsed_time_skips_sample_witness :
  let st := encoder_update 100000 (Some 1000%Z) (Some 1000%Z)
              (encoder_init 0 0) in
  let st' := encoder_update 100000 (Some 1600%Z) None st in
  (delta_time_us 100000 (left_encoder st) <= 0)%Z /\
  sample_skipped 100000 (Some 1600%Z) (left_encoder st) (left_encoder st') /\
  next_deltas_from 1600 100000 (left_encoder st').
Proof.
  intros st st'.
  assert (Ht : (delta_time_us 100000 (left_encoder st) <= 0)%Z).
  { unfold st, encoder_update, with_left, with_right, sample_wheel.
    cbn [left_encoder right_encoder wheel_circumference_m].
    destruct (delta_time_us 100000 (left_encoder (encoder_init 0 0)) >? 0)%Z;
      vm_compute; discriminate. }
  split; [exact Ht |].
  destruct (proj1 (nonpositive_elapsed_time_skips_sample
                     100000 (Some 1600%Z) None st) Ht) as [H1 H2].
  split; [exact H1 | exact (H2 1600%Z eq_refl)].
Defined.

End EncoderFacts.

(** ** Command Relay and Control Loop *)

Module MainFacts.

Import CFloat Main.
Local Open Scope Z_scope.

(** *** The relay is a bounded first-in first-out queue *)

Lemma xQueueSend_room q item ticks :
  (length q < JOYSTICK_QUEUE_LENGTH)%nat ->
  xQueueSend q item ticks = (q ++ [item], true, 0).
Proof.
  intros H. unfold xQueueSend.
  apply Nat.ltb_lt in H. rewrite H. reflexivity.
Qed.

Lemma xQueueSend_full q item ticks :
  (JOYSTICK_QUEUE_LENGTH <= length q)%nat ->
  xQueueSend q item ticks = (q, false, ticks).
Proof.
  intros H. unfold xQueueSend.
  apply Nat.ltb_ge in H. rewrite H. reflexivity.
Qed.

(** C1, as amended: a push of a joystick command into the Command Relay
    never blocks.  While fewer than ten commands are pending the new one is
    queued behind them; with ten pending it is dropped and the queue is
    unchanged.  A pending command is never overwritten: the Control Loop's
    receive yields the oldest pending command, not the one just pushed. *)
Theorem relay_push_queues_behind cmd st :
  let pushed := websocket_control_callback cmd st in
  snd pushed = 0 /\
  ((length (joystick_queue st) < JOYSTICK_QUEUE_LENGTH)%nat ->
     joystick_queue (fst pushed) = joystick_queue st ++ [cmd]) /\
  ((JOYSTICK_QUEUE_LENGTH <= length (joystick_queue st))%nat ->
     joystick_queue (fst pushed) = joystick_queue st) /\
  (forall oldest rest hz arrival,
     joystick_queue st = oldest :: rest ->
     received_item (control_receive hz arrival (fst pushed)) = Some oldest).
Proof.
  unfold websocket_control_callback.
  destruct (Nat.ltb_spec (length (joystick_queue st)) JOYSTICK_QUEUE_LENGTH)
    as [Hroom | Hfull].
  - rewrite xQueueSend_room by exact Hroom. cbn [fst snd with_queue joystick_queue].
    split; [reflexivity |]. split; [reflexivity |].
    split; [intros Hc; lia |].
    intros oldest rest hz arrival E. unfold control_receive.
    cbn [joystick_queue with_queue]. rewrite E. reflexivity.
  - rewrite xQueueSend_full by exact Hfull. cbn [fst snd with_queue joystick_queue].
    split; [reflexivity |]. split; [intros Hc; lia |].
    split; [reflexivity |].
    intros oldest rest hz arrival E. unfold control_receive.
    cbn [joystick_queue with_queue]. rewrite E. reflexivity.
Qed.

(** C1, as stated, fails: two commands pushed before the Control Loop
    runs are both held, and the receive yields the first of them, not the
    most recent; an eleventh pending command is dropped and the ten before
    it stay. *)
Lemma relay_receive_yields_oldest :
  let st1 := fst (websocket_control_callback (forward_cmd 1) initial_state) in
  let st2 := fst (websocket_control_callback (forward_cmd 2) st1) in
  let full := with_queue (map forward_cmd [1; 2; 3; 4; 5; 6; 7; 8; 9; 10])
                initial_state in
  map timestamp (joystick_queue st2) = [1; 2] /\
  option_map timestamp
    (received_item (control_receive 1000 None st2)) = Some 1 /\
  map timestamp
    (joystick_queue (fst (websocket_control_callback (forward_cmd 11) full)))
    = [1; 2; 3; 4; 5; 6; 7; 8; 9; 10].
Proof. repeat split. Qed.

(** *** The Control Loop's wait and its forced stop *)

Lemma pdMS_TO_TICKS_nonneg hz ms : 0 <= hz -> 0 <= ms -> 0 <= pdMS_TO_TICKS hz ms.
Proof.
  intros Hhz Hms. unfold pdMS_TO_TICKS. apply Z.div_pos; nia.
Qed.

Lemma xQueueReceive_wait q ticks arrival :
  0 <= ticks -> 0 <= ticks_waited (xQueueReceive q ticks arrival) <= ticks.
Proof.
  intros Ht. unfold xQueueReceive, ticks_waited.
  destruct q as [| item rest]; [| simpl; lia].
  destruct arrival as [[t item] |]; [| simpl; lia].
  destruct (Z.ltb_spec t ticks); simpl; lia.
Qed.

(** C2, as amended: each turn of the Control Loop waits for a relayed
    command for at most the ticks of 100 ms (five periods at the nominal
    50 Hz), at any tick rate; whenever that wait times out with no
    command, the turn's actuation commands exactly (0,0) to both motors
    and the recorded last-commanded duties are both zero. *)
Theorem control_loop_wait_and_forced_stop hz arrival st :
  0 <= hz ->
  let r := control_receive hz arrival st in
  0 <= ticks_waited r <= pdMS_TO_TICKS hz 100 /\
  (received_item r = None ->
   exists st',
     motor_control_iteration hz arrival st = Some st' /\
     motors_stopped (motors st') /\
     current_left_pwm st' = 0 /\ current_right_pwm st' = 0).
Proof.
  intros Hhz r. split.
  - apply xQueueReceive_wait. apply pdMS_TO_TICKS_nonneg; lia.
  - intros Hnone. unfold motor_control_iteration. fold r.
    destruct r as [[received q] waited]. unfold received_item in Hnone.
    simpl in Hnone. subst received.
    eexists. split; [reflexivity |]. repeat split.
Qed.

(** C2, witness: one tick per millisecond, an empty queue and nothing
    relayed. *)
Lemma control_loop_wait_and_forced_stop_witness :
  0 <= 1000 /\
  received_item (control_receive 1000 None initial_state) = None /\
  exists st',
    motor_control_iteration 1000 None initial_state = Some st' /\
    motors_stopped (motors st') /\
    current_left_pwm st' = 0 /\ current_right_pwm st' = 0.
Proof.
  assert (H : 0 <= 1000) by lia.
  split; [exact H |]. split; [reflexivity |].
  exact (proj2 (control_loop_wait_and_forced_stop 1000 None initial_state H)
           eq_refl).
Defined.

(** C2, as stated, fails: the wait is not bounded by one period.  At 100
    ticks per second a period is 2 ticks and the loop waits 10 on an empty
    queue with nothing relayed; at one tick per millisecond the figures are
    20 and 100, and a command relayed 50 ticks into the wait, after more
    than two periods of silence, is still received and actuated at full
    duty instead of a stop. *)
Lemma control_loop_waits_five_periods :
  (control_period 100 = 2 /\
   ticks_waited (control_receive 100 None initial_state) = 10) /\
  control_period 1000 = 20 /\
  ticks_waited (control_receive 1000 None initial_state) = 100 /\
  ticks_waited
    (control_receive 1000 (Some (50, forward_cmd 7)) initial_state) = 50 /\
  exists st',
    motor_control_iteration 1000 (Some (50, forward_cmd 7)) initial_state
      = Some st' /\
    current_left_pwm st' = 255 /\ current_right_pwm st' = 255.
Proof.
  split; [split; reflexivity |].
  split; [reflexivity |]. split; [reflexivity |]. split; [reflexivity |].
  unfold motor_control_iteration.
  replace (control_receive 1000 (Some (50, forward_cmd 7)) initial_state)
    with (Some (forward_cmd 7), @nil joystick_cmd_t, 50) by reflexivity.
  cbn [current_config initial_state angle magnitude forward_cmd].
  rewrite FuzzyFacts.normal_full_forward.
  eexists. split; [reflexivity |]. split; reflexivity.
Qed.

End MainFacts.

(** * Further properties of the code *)

(** ** Truncation *)

Module TruncFacts.

Import CInt CFloat CIntFacts CFloatFacts.
Local Open Scope R_scope.

(** Truncation toward zero is odd. *)
Lemma trunc_opp x : trunc (- x) = (- trunc x)%Z.
Proof.
  unfold trunc.
  destruct (Rle_dec 0 x) as [Hx | Hx]; destruct (Rle_dec 0 (- x)) as [Hn | Hn].
  - assert (E : x = 0) by lra. subst x. rewrite Ropp_0.
    change 0 with (IZR 0). rewrite Int_part_IZR. reflexivity.
  - rewrite Ropp_involutive. reflexivity.
  - lia.
  - lra.
Qed.

(** It never leaves an interval with integer ends. *)
Lemma trunc_within (x : float) (lo hi : Z) :
  IZR lo <= x <= IZR hi -> (lo <= trunc x <= hi)%Z.
Proof.
  intros [Hlo Hhi]. unfold trunc. destruct (Rle_dec 0 x) as [Hx | Hx].
  - destruct (Int_part_bounds x) as [H1 H2].
    assert (Ha : (Int_part x <= hi)%Z) by (apply le_IZR; lra).
    assert (Hb : (lo < Int_part x + 1)%Z) by (apply lt_IZR; rewrite plus_IZR; lra).
    lia.
  - destruct (Int_part_bounds (- x)) as [H1 H2].
    assert (Ha : (Int_part (- x) <= - lo)%Z)
      by (apply le_IZR; rewrite opp_IZR; lra).
    assert (Hb : (- hi < Int_part (- x) + 1)%Z)
      by (apply lt_IZR; rewrite plus_IZR, opp_IZR; lra).
    lia.
Qed.

Lemma cast_int16_within (x : float) (lo hi : Z) :
  in_int16 lo -> in_int16 hi -> IZR lo <= x <= IZR hi ->
  exists d, cast_int16 x = Some d /\ (lo <= d <= hi)%Z.
Proof.
  intros Hl Hh Hx. pose proof (trunc_within x lo hi Hx) as Ht.
  exists (trunc x). split; [| exact Ht].
  unfold cast_int16.
  replace (in_int16b (trunc x)) with true; [reflexivity |].
  symmetry. apply in_int16b_spec. int16_range.
Qed.

End TruncFacts.

(** ** The Drive Mapper, continued *)

Module FuzzyMore.

Import CInt CFloat CIntFacts CFloatFacts TruncFacts Fuzzy FuzzyFacts.
Local Open Scope R_scope.

(** *** Angle normalisation *)

Lemma to_float_nonneg x r : 0 <= x -> to_float x = Some r -> 0 <= r.
Proof.
  intros Hx. unfold to_float.
  destruct (Rlt_dec _ _); [| discriminate].
  intros H. injection H as <-.
  pose proof (pow2_pos (ulp_exponent x)) as Hp.
  assert (Hy : 0 <= x / pow2 (ulp_exponent x)).
  { apply Rmult_le_pos; [exact Hx |]. left. apply Rinv_0_lt_compat.
    exact Hp. }
  pose proof (proj1 (nearest_even_sign _) Hy) as Hk.
  apply IZR_le in Hk. apply Rmult_le_pos; lra.
Qed.

Lemma wind_up_range n : forall a theta,
  wind_up n a = Some theta -> 0 <= theta.
Proof.
  induction n as [| n IH]; intros a theta; [discriminate |].
  cbn [wind_up]. destruct (Rlt_dec a 0) as [Hneg | Hpos].
  - destruct (to_float (a + 2 * M_PI)) as [a' |]; [| discriminate].
    cbn [bind]. apply IH.
  - intros H. injection H as <-. lra.
Qed.

Lemma wind_down_range n : forall a theta,
  0 <= a -> wind_down n a = Some theta -> 0 <= theta < 2 * M_PI.
Proof.
  induction n as [| n IH]; intros a theta Ha; [discriminate |].
  cbn [wind_down]. destruct (Rge_dec a (2 * M_PI)) as [Hbig | Hsmall].
  - destruct (to_float (a - 2 * M_PI)) as [a' |] eqn:E; [| discriminate].
    cbn [bind]. apply IH. apply (to_float_nonneg (a - 2 * M_PI) a'); [lra | exact E].
  - intros H. injection H as <-. lra.
Qed.

Lemma normalize_angle_range a theta :
  normalize_angle a = Some theta -> 0 <= theta < 2 * M_PI.
Proof.
  unfold normalize_angle.
  destruct (wind_up (turns a) a) as [a1 |] eqn:E1; [| discriminate].
  cbn [bind]. apply wind_down_range. apply (wind_up_range _ _ _ E1).
Qed.

(** Without a normalised angle the mapper goes no further than the test
    of the magnitude. *)
Lemma fuzzy_control_process_hangs c a m :
  normalize_angle a = None ->
  fuzzy_control_process c a m = None \/
  fuzzy_control_process c a m = Some stop_command.
Proof.
  intros Hn. unfold fuzzy_control_process.
  destruct (apply_dead_zone m (dead_zone c)) as [r |]; [| left; reflexivity].
  cbn [bind]. unfold process_rescaled.
  destruct (Req_dec_T r 0); [right; reflexivity |].
  destruct (apply_curve r (curve c)); [| left; reflexivity].
  cbn [bind]. rewrite Hn. left. reflexivity.
Qed.

(** X1: where [normalize_angle] returns and where it does not.  Whenever
    it returns, the angle returned is in [0, 2 pi) and is left as it is by
    a second call; an angle already in [0, 2 pi) is returned unchanged; it
    returns for every angle of at most [2^27] in absolute value.  For an
    angle that the subtraction of 2 pi, rounded to single precision,
    leaves as it is, such as 1e9, the second loop does not end: the
    function does not return, and the mapper called with such an angle
    either returns the stop command for a zero magnitude or does not
    return. *)
Theorem normalize_angle_returns_or_hangs a :
  (forall theta, normalize_angle a = Some theta ->
     0 <= theta < 2 * M_PI /\ normalize_angle theta = Some theta) /\
  (0 <= a < 2 * M_PI -> normalize_angle a = Some a) /\
  (Rabs a <= 134217728 -> exists theta, normalize_angle a = Some theta) /\
  (2 * M_PI <= a -> to_float (a - 2 * M_PI) = Some a ->
   normalize_angle a = None) /\
  normalize_angle 1000000000 = None /\
  (normalize_angle a = None ->
   forall c m, fuzzy_control_process c a m = None \/
               fuzzy_control_process c a m = Some stop_command).
Proof.
  pose proof two_pi_bounds as Hpi.
  split.
  { intros theta H. pose proof (normalize_angle_range a theta H) as Hr.
    split; [exact Hr | apply normalize_angle_id; exact Hr]. }
  split; [apply normalize_angle_id |].
  split.
  { intros Ha. destruct (normalize_angle_ends a Ha) as (theta & E & _).
    exists theta. exact E. }
  split; [apply normalize_angle_absorbed |].
  split.
  { apply normalize_angle_absorbed; [lra | apply to_float_absorbs_at_1e9]. }
  intros Hn c m. apply fuzzy_control_process_hangs. exact Hn.
Qed.

(** *** Response curves *)

Lemma apply_curve_monotone c a b a' b' :
  0 <= a <= b ->
  apply_curve a c = Some a' -> apply_curve b c = Some b' -> a' <= b'.
Proof.
  intros Hab Ea Eb. destruct c; simpl in Ea, Eb.
  - injection Ea as <-. injection Eb as <-. lra.
  - injection Ea as <-. injection Eb as <-. nra.
  - injection Ea as <-. injection Eb as <-.
    assert (a * a <= b * b) by nra. assert (0 <= a * a) by nra. nra.
  - unfold sqrtf in Ea, Eb.
    destruct (Rlt_dec a 0); [lra |]. destruct (Rlt_dec b 0); [lra |].
    injection Ea as <-. injection Eb as <-. apply sqrt_le_1; lra.
Qed.

(** X2: on the unit interval every response curve is defined, stays within
    the unit interval, keeps 0 and 1 fixed and is monotone. *)
Theorem apply_curve_unit_interval c :
  (forall m, 0 <= m <= 1 ->
     exists m', apply_curve m c = Some m' /\ 0 <= m' <= 1) /\
  apply_curve 0 c = Some 0 /\
  apply_curve 1 c = Some 1 /\
  (forall a b a' b', 0 <= a <= b ->
     apply_curve a c = Some a' -> apply_curve b c = Some b' -> a' <= b').
Proof.
  split; [intros m Hm; apply apply_curve_unit; exact Hm |].
  split; [| split].
  - destruct c; simpl; try (f_equal; lra).
    unfold sqrtf. destruct (Rlt_dec 0 0); [lra |]. rewrite sqrt_0. reflexivity.
  - destruct c; simpl; try (f_equal; lra).
    unfold sqrtf. destruct (Rlt_dec 1 0); [lra |]. rewrite sqrt_1. reflexivity.
  - intros a b a' b'. apply apply_curve_monotone.
Qed.

(** X3: on the unit interval the four curves are ordered: cubic below
    quadratic below linear below square root. *)
Theorem curves_ordered m :
  0 <= m <= 1 ->
  exists cu qu li sq,
    apply_curve m FUZZY_CURVE_CUBIC = Some cu /\
    apply_curve m FUZZY_CURVE_QUADRATIC = Some qu /\
    apply_curve m FUZZY_CURVE_LINEAR = Some li /\
    apply_curve m FUZZY_CURVE_SQRT = Some sq /\
    cu <= qu <= li /\ li <= sq.
Proof.
  intros Hm. exists (m * m * m), (m * m), m, (sqrt m). simpl.
  unfold sqrtf. destruct (Rlt_dec m 0); [lra |].
  repeat split; try nra.
  pose proof (sqrt_pos m) as Hp. pose proof (sqrt_sqrt m (proj1 Hm)) as Hs.
  assert (Hle : sqrt m <= 1) by (rewrite <- sqrt_1; apply sqrt_le_1; lra).
  nra.
Qed.

(** X3, witness: a quarter deflection. *)
Lemma curves_ordered_witness :
  0 <= 0.25 <= 1 /\
  exists cu qu li sq,
    apply_curve 0.25 FUZZY_CURVE_CUBIC = Some cu /\
    apply_curve 0.25 FUZZY_CURVE_QUADRATIC = Some qu /\
    apply_curve 0.25 FUZZY_CURVE_LINEAR = Some li /\
    apply_curve 0.25 FUZZY_CURVE_SQRT = Some sq /\
    cu <= qu <= li /\ li <= sq.
Proof.
  assert (H : 0 <= 0.25 <= 1) by lra.
  split; [exact H | exact (curves_ordered 0.25 H)].
Defined.

(** *** The minimum-duty floor *)

Lemma apply_min_duty_closed d lo :
  in_int16 lo ->
  apply_min_duty d lo = (Z.sgn d * Z.max (Z.abs d) lo)%Z.
Proof.
  intros Hlo. unfold apply_min_duty.
  destruct (Z.eqb_spec d 0) as [E0 | N0]; [subst d; reflexivity |].
  rewrite !Z.gtb_ltb.
  destruct (Z.ltb_spec 0 d); destruct (Z.ltb_spec d lo); simpl; try lia;
    destruct (Z.ltb_spec d 0); destruct (Z.ltb_spec (- lo) d); simpl;
    try lia;
    rewrite wrap16_small by int16_range;
    lia.
Qed.

(** X4: the minimum-duty floor keeps the sign of a duty and raises its
    absolute value to [min_duty] when it is below: the result is
    sign(duty) * max(|duty|, min_duty).  Zero stays zero, a duty at or
    above the floor is unchanged, and applying the floor twice is applying
    it once. *)
Theorem apply_min_duty_sign_and_floor d lo :
  in_int16 lo ->
  apply_min_duty d lo = (Z.sgn d * Z.max (Z.abs d) lo)%Z /\
  Z.sgn (apply_min_duty d lo) = Z.sgn d /\
  ((lo <= Z.abs d)%Z -> apply_min_duty d lo = d) /\
  apply_min_duty (apply_min_duty d lo) lo = apply_min_duty d lo.
Proof.
  intros Hlo. split; [apply apply_min_duty_closed; exact Hlo |].
  rewrite !apply_min_duty_closed by exact Hlo.
  repeat split; try intros H; lia.
Qed.

(** X4, witness: a floor of 35, on a small reverse duty. *)
Lemma apply_min_duty_sign_and_floor_witness :
  in_int16 35 /\ apply_min_duty (-7) 35 = (-35)%Z /\
  apply_min_duty (-7) 35 = (Z.sgn (-7) * Z.max (Z.abs (-7)) 35)%Z.
Proof.
  assert (H : in_int16 35) by int16_range.
  split; [exact H |]. split; [reflexivity |].
  exact (proj1 (apply_min_duty_sign_and_floor (-7) 35 H)).
Defined.

(** *** Exponential smoothing *)

(** Rounding a number below [2^b] moves it by at most [2^(b-25)]. *)
Lemma to_float_below x (b : Z) :
  (-125 <= b <= 127)%Z -> Rabs x < pow2 b ->
  exists r, to_float x = Some r /\ Rabs (r - x) <= pow2 (b - 25).
Proof.
  intros Hb Hx.
  assert (Hx' : Rabs x < pow2 127).
  { apply Rlt_le_trans with (1 := Hx). apply pow2_le. lia. }
  destruct (to_float_defined x Hx') as (r & Er & Herr & _).
  destruct (ulp_exponent_spec x Hx') as (He & Hlo & Hhi).
  exists r. split; [exact Er |].
  assert (Hle : (ulp_exponent x <= b - 24)%Z).
  { destruct (Z_lt_le_dec (b - 24) (ulp_exponent x)) as [H | H];
      [| exact H].
    exfalso.
    assert (H1 : pow2 (ulp_exponent x + 23) <= Rabs x) by (apply Hlo; lia).
    assert (H2 : pow2 b <= pow2 (ulp_exponent x + 23))
      by (apply pow2_le; lia).
    lra. }
  assert (H1 : pow2 (ulp_exponent x) <= pow2 (b - 24))
    by (apply pow2_le; exact Hle).
  assert (H2 : pow2 (b - 24) = 2 * pow2 (b - 25)).
  { replace (b - 24)%Z with (b - 25 + 1)%Z by lia. apply pow2_succ. }
  lra.
Qed.

(** Truncation toward zero stays on the near side of an integer. *)
Lemma trunc_lower (z : Z) x :
  (z <= 0)%Z -> IZR z - 1 < x -> (z <= trunc x)%Z.
Proof.
  intros Hz Hx. unfold trunc. destruct (Rle_dec 0 x) as [Hp | Hn].
  - destruct (Int_part_bounds x) as [H1 H2].
    assert (H : (-1 < Int_part x)%Z) by (apply lt_IZR; lra).
    lia.
  - destruct (Int_part_bounds (- x)) as [H1 H2].
    assert (H : (Int_part (- x) < 1 - z)%Z).
    { apply lt_IZR. rewrite minus_IZR. lra. }
    lia.
Qed.

Lemma trunc_upper (z : Z) x :
  (0 <= z)%Z -> x < IZR z + 1 -> (trunc x <= z)%Z.
Proof.
  intros Hz Hx.
  assert (H : (- z <= trunc (- x)%R)%Z).
  { apply trunc_lower; [lia |]. rewrite opp_IZR. lra. }
  rewrite trunc_opp in H. lia.
Qed.

Lemma clamp_01 v : 0 <= clamp v 0 1 <= 1.
Proof.
  unfold clamp. destruct (Rlt_dec v 0); [lra |].
  destruct (Rgt_dec v 1); lra.
Qed.

Lemma in_int16_to_float z : in_int16 z -> to_float (IZR z) = Some (IZR z).
Proof.
  intros Hz. apply to_float_IZR.
  unfold in_int16, INT16_MIN, INT16_MAX in Hz.
  change (2 ^ 24)%Z with 16777216%Z. lia.
Qed.

Lemma cast_int16_IZR z : in_int16 z -> cast_int16 (IZR z) = Some z.
Proof.
  intros Hz. unfold cast_int16. rewrite trunc_IZR.
  apply in_int16b_spec in Hz. rewrite Hz. reflexivity.
Qed.

(** With a factor of 1 the blend is the target, with 0 the current duty:
    both all through exact. *)
Lemma blend_target t c : in_int16 t -> in_int16 c -> blend 1 t c = Some t.
Proof.
  intros Ht Hc. unfold blend.
  rewrite Rmult_1_l, (in_int16_to_float t Ht). cbn [bind].
  rewrite Rminus_diag. rewrite (to_float_IZR 0) by reflexivity. cbn [bind].
  rewrite Rmult_0_l. rewrite (to_float_IZR 0) by reflexivity. cbn [bind].
  rewrite Rplus_0_r, (in_int16_to_float t Ht). cbn [bind].
  apply cast_int16_IZR. exact Ht.
Qed.

Lemma blend_current t c : in_int16 t -> in_int16 c -> blend 0 t c = Some c.
Proof.
  intros Ht Hc. unfold blend.
  rewrite Rmult_0_l. rewrite (to_float_IZR 0) by reflexivity. cbn [bind].
  rewrite Rminus_0_r. rewrite (to_float_IZR 1) by reflexivity. cbn [bind].
  rewrite Rmult_1_l, (in_int16_to_float c Hc). cbn [bind].
  rewrite Rplus_0_l, (in_int16_to_float c Hc). cbn [bind].
  apply cast_int16_IZR. exact Hc.
Qed.

(** In between, the four roundings move the blend by less than 1/64, and
    the cast by less than one more. *)
Lemma blend_within alpha t c :
  0 <= alpha <= 1 -> in_int16 t -> in_int16 c ->
  exists d, blend alpha t c = Some d /\
            (Z.min t c - 1 <= d <= Z.max t c + 1)%Z.
Proof.
  intros Ha Ht Hc.
  assert (Bt : -32768 <= IZR t <= 32767).
  { unfold in_int16, INT16_MIN, INT16_MAX in Ht. destruct Ht as [H1 H2].
    apply IZR_le in H1, H2. lra. }
  assert (Bc : -32768 <= IZR c <= 32767).
  { unfold in_int16, INT16_MIN, INT16_MAX in Hc. destruct Hc as [H1 H2].
    apply IZR_le in H1, H2. lra. }
  assert (E16 : pow2 16 = 65536) by reflexivity.
  assert (E17 : pow2 17 = 131072) by reflexivity.
  assert (E1 : pow2 1 = 2) by reflexivity.
  assert (Em9 : pow2 (16 - 25) = / 512) by reflexivity.
  assert (Em8 : pow2 (17 - 25) = / 256) by reflexivity.
  assert (Em24 : pow2 (1 - 25) = / 16777216) by reflexivity.
  unfold blend.
  destruct (to_float_below (alpha * IZR t) 16) as (r1 & F1 & D1);
    [lia | rewrite E16; apply Rabs_def1; nra |].
  destruct (to_float_below (1 - alpha) 1) as (r2 & F2 & D2);
    [lia | rewrite E1; apply Rabs_def1; lra |].
  rewrite Em9 in D1. rewrite Em24 in D2.
  apply Rabs_le_inv in D1. apply Rabs_le_inv in D2.
  destruct (to_float_below (r2 * IZR c) 16) as (r3 & F3 & D3);
    [lia | rewrite E16; apply Rabs_def1; nra |].
  rewrite Em9 in D3. apply Rabs_le_inv in D3.
  assert (B1 : -32769 <= r1 <= 32769) by nra.
  assert (B3 : -32769 <= r3 <= 32769) by nra.
  destruct (to_float_below (r1 + r3) 17) as (r4 & F4 & D4);
    [lia | rewrite E17; apply Rabs_def1; lra |].
  rewrite Em8 in D4. apply Rabs_le_inv in D4.
  rewrite F1. cbn [bind]. rewrite F2. cbn [bind].
  rewrite F3. cbn [bind]. rewrite F4. cbn [bind].
  assert (Hideal : IZR (Z.min t c) <= alpha * IZR t + (1 - alpha) * IZR c
                   <= IZR (Z.max t c)).
  { destruct (Z.le_ge_cases t c) as [Htc | Htc].
    - rewrite Z.min_l, Z.max_r by exact Htc. apply IZR_le in Htc. nra.
    - rewrite Z.min_r, Z.max_l by exact Htc. apply IZR_le in Htc. nra. }
  assert (Herr : - / 64 <= r4 - (alpha * IZR t + (1 - alpha) * IZR c)
                 <= / 64).
  { assert (Hc2 : - / 512 <= (r2 - (1 - alpha)) * IZR c <= / 512) by nra.
    replace (r4 - (alpha * IZR t + (1 - alpha) * IZR c))
      with ((r4 - (r1 + r3)) + (r1 - alpha * IZR t)
            + (r3 - r2 * IZR c) + (r2 - (1 - alpha)) * IZR c) by ring.
    lra. }
  assert (Hlo : IZR (Z.min t c - 1) <= r4) by (rewrite minus_IZR; lra).
  assert (Hhi : r4 <= IZR (Z.max t c + 1)) by (rewrite plus_IZR; lra).
  pose proof (trunc_within r4 _ _ (conj Hlo Hhi)) as Hd.
  assert (Hmin : -32768 <= IZR (Z.min t c)).
  { destruct (Z.le_ge_cases t c) as [Htc | Htc];
      [rewrite Z.min_l by exact Htc | rewrite Z.min_r by exact Htc]; lra. }
  assert (Hmax : IZR (Z.max t c) <= 32767).
  { destruct (Z.le_ge_cases t c) as [Htc | Htc];
      [rewrite Z.max_r by exact Htc | rewrite Z.max_l by exact Htc]; lra. }
  assert (Hfit : in_int16 (trunc r4)).
  { unfold in_int16, INT16_MIN, INT16_MAX. split.
    - apply trunc_lower; [lia | lra].
    - apply trunc_upper; [lia | lra]. }
  exists (trunc r4). split; [| exact Hd].
  unfold cast_int16. apply in_int16b_spec in Hfit. rewrite Hfit.
  reflexivity.
Qed.

(** The margin is needed.  With a factor of 0.1f = 13421773 / 2^27 the
    blend of 3 with 3 is rounded to 2.9999998, and cast to 2. *)
Lemma blend_below :
  blend (13421773 / 134217728) 3 3 = Some 2%Z.
Proof.
  assert (Big : forall r, Rabs r < 4 -> Rabs r < pow2 128).
  { intros r Hr. assert (H : pow2 2 <= pow2 128) by (apply pow2_le; lia).
    assert (E : pow2 2 = 4) by reflexivity. lra. }
  assert (F1 : to_float (13421773 / 134217728 * 3)
               = Some (IZR 10066330 * pow2 (-25))).
  { assert (E : pow2 (-25) = / 33554432) by reflexivity.
    assert (Elo : pow2 (-25 + 23) = / 4) by reflexivity.
    assert (Ehi : pow2 (-25 + 24) = / 2) by reflexivity.
    apply to_float_eq.
    - lia.
    - intros _. rewrite Elo, Rabs_right by lra. lra.
    - rewrite Ehi, Rabs_right by lra. lra.
    - apply nearest_even_near. rewrite E. apply Rabs_def1; lra.
    - apply Big. rewrite E. apply Rabs_def1; lra. }
  assert (F2 : to_float (1 - 13421773 / 134217728)
               = Some (IZR 15099494 * pow2 (-24))).
  { assert (E : pow2 (-24) = / 16777216) by reflexivity.
    assert (Elo : pow2 (-24 + 23) = / 2) by reflexivity.
    assert (Ehi : pow2 (-24 + 24) = 1) by reflexivity.
    apply to_float_eq.
    - lia.
    - intros _. rewrite Elo, Rabs_right by lra. lra.
    - rewrite Ehi, Rabs_right by lra. lra.
    - apply nearest_even_near. rewrite E. apply Rabs_def1; lra.
    - apply Big. rewrite E. apply Rabs_def1; lra. }
  assert (F3 : to_float (IZR 15099494 * pow2 (-24) * 3)
               = Some (IZR 11324620 * pow2 (-22))).
  { assert (E24 : pow2 (-24) = / 16777216) by reflexivity.
    assert (E : pow2 (-22) = / 4194304) by reflexivity.
    assert (Elo : pow2 (-22 + 23) = 2) by reflexivity.
    assert (Ehi : pow2 (-22 + 24) = 4) by reflexivity.
    apply to_float_eq.
    - lia.
    - intros _. rewrite Elo, E24, Rabs_right by lra. lra.
    - rewrite Ehi, E24, Rabs_right by lra. lra.
    - replace (IZR 15099494 * pow2 (-24) * 3 / pow2 (-22))
        with (IZR 11324620 + 1 / 2) by (rewrite E24, E; lra).
      rewrite nearest_even_tie. reflexivity.
    - apply Big. rewrite E. apply Rabs_def1; lra. }
  assert (F4 : to_float (IZR 10066330 * pow2 (-25)
                         + IZR 11324620 * pow2 (-22))
               = Some (IZR 12582911 * pow2 (-22))).
  { assert (E25 : pow2 (-25) = / 33554432) by reflexivity.
    assert (E : pow2 (-22) = / 4194304) by reflexivity.
    assert (Elo : pow2 (-22 + 23) = 2) by reflexivity.
    assert (Ehi : pow2 (-22 + 24) = 4) by reflexivity.
    apply to_float_eq.
    - lia.
    - intros _. rewrite Elo, E25, E, Rabs_right by lra. lra.
    - rewrite Ehi, E25, E, Rabs_right by lra. lra.
    - apply nearest_even_near. rewrite E25, E. apply Rabs_def1; lra.
    - apply Big. rewrite E. apply Rabs_def1; lra. }
  unfold blend. rewrite F1. cbn [bind]. rewrite F2. cbn [bind].
  rewrite F3. cbn [bind]. rewrite F4. cbn [bind].
  unfold cast_int16.
  assert (E : pow2 (-22) = / 4194304) by reflexivity.
  rewrite (trunc_between _ 2); [reflexivity | lia |].
  rewrite E. lra.
Qed.

(** X5: [fuzzy_control_smooth] stays within one of the two commands.  For
    duties that an [int16_t] holds and every factor, each smoothed duty is
    defined and lies between the current and the target duty of its side,
    up to a margin of one that the roundings of the blend and the cast
    take; a factor of 1 or more gives the target exactly, a factor of 0 or
    less the current command.  The margin is needed: smoothing (3,3)
    towards (3,3) with the factor 0.1f gives (2,2). *)
Theorem fuzzy_control_smooth_within_one current target alpha :
  in_int16 (left_duty current) -> in_int16 (right_duty current) ->
  in_int16 (left_duty target) -> in_int16 (right_duty target) ->
  (exists out,
     fuzzy_control_smooth current target alpha = Some out /\
     (Z.min (left_duty target) (left_duty current) - 1 <= left_duty out
        <= Z.max (left_duty target) (left_duty current) + 1)%Z /\
     (Z.min (right_duty target) (right_duty current) - 1 <= right_duty out
        <= Z.max (right_duty target) (right_duty current) + 1)%Z /\
     (1 <= alpha -> out = target) /\
     (alpha <= 0 -> out = current)) /\
  fuzzy_control_smooth {| left_duty := 3; right_duty := 3 |}
    {| left_duty := 3; right_duty := 3 |} (13421773 / 134217728)
  = Some {| left_duty := 2; right_duty := 2 |}.
Proof.
  intros Hcl Hcr Htl Htr. split.
  - pose proof (clamp_01 alpha) as Ha.
    destruct (blend_within (clamp alpha 0 1) _ _ Ha Htl Hcl)
      as (l & El & Bl).
    destruct (blend_within (clamp alpha 0 1) _ _ Ha Htr Hcr)
      as (r & Er & Br).
    exists {| left_duty := l; right_duty := r |}.
    unfold fuzzy_control_smooth. rewrite El. cbn [bind]. rewrite Er.
    cbn [bind left_duty right_duty].
    split; [reflexivity |]. split; [exact Bl |]. split; [exact Br |].
    split; intros Hal.
    + assert (E : clamp alpha 0 1 = 1).
      { unfold clamp. destruct (Rlt_dec alpha 0); [lra |].
        destruct (Rgt_dec alpha 1); lra. }
      rewrite E in El, Er.
      rewrite (blend_target _ _ Htl Hcl) in El.
      rewrite (blend_target _ _ Htr Hcr) in Er.
      injection El as <-. injection Er as <-.
      destruct target; reflexivity.
    + assert (E : clamp alpha 0 1 = 0).
      { unfold clamp. destruct (Rlt_dec alpha 0); [reflexivity |].
        destruct (Rgt_dec alpha 1); lra. }
      rewrite E in El, Er.
      rewrite (blend_current _ _ Htl Hcl) in El.
      rewrite (blend_current _ _ Htr Hcr) in Er.
      injection El as <-. injection Er as <-.
      destruct current; reflexivity.
  - unfold fuzzy_control_smooth. cbn [left_duty right_duty].
    assert (E : clamp (13421773 / 134217728) 0 1 = 13421773 / 134217728).
    { unfold clamp. destruct (Rlt_dec _ 0); [lra |].
      destruct (Rgt_dec _ 1); [lra | reflexivity]. }
    rewrite E, blend_below. reflexivity.
Qed.

(** X5, witness: from a stop towards full forward with a factor of 0.3. *)
Lemma fuzzy_control_smooth_within_one_witness :
  let current := {| left_duty := 0; right_duty := 0 |} in
  let target := {| left_duty := 255; right_duty := 255 |} in
  (in_int16 0 /\ in_int16 255) /\
  exists out,
    fuzzy_control_smooth current target 0.3 = Some out /\
    (-1 <= left_duty out <= 256)%Z /\ (-1 <= right_duty out <= 256)%Z.
Proof.
  intros current target.
  assert (H0 : in_int16 0) by int16_range.
  assert (H1 : in_int16 255) by int16_range.
  split; [split; assumption |].
  destruct (fuzzy_control_smooth_within_one current target 0.3
              H0 H0 H1 H1) as [(out & E & Bl & Br & _) _].
  exists out. split; [exact E |]. split; [exact Bl | exact Br].
Defined.

(** *** Monotone response *)












End FuzzyMore.

(** ** The Actuation Governor *)

Module MotorFacts.

Import Motor.
Local Open Scope Z_scope.

(** Case analysis on every comparison of the goal. *)
Ltac ltb_cases :=
  repeat match goal with
         | |- context [(?a <? ?b)%Z] =>
             destruct (Z.ltb_spec a b); cbv iota
         | H : context [(?a <? ?b)%Z] |- _ =>
             destruct (Z.ltb_spec a b); cbv iota in H
         end.

(** X9: whatever duty is asked for, [motor_set_left] / [motor_set_right]
    leave at most one of the motor's two comparators non-zero, each within
    0..255, and the difference forward - backward is the duty clamped to
    -255..255. *)
Theorem motor_set_exclusive_and_clamped duty :
  exclusive (motor_set duty) /\
  0 <= comparator_fwd (motor_set duty) <= MOTOR_PWM_RESOLUTION /\
  0 <= comparator_bwd (motor_set duty) <= MOTOR_PWM_RESOLUTION /\
  comparator_fwd (motor_set duty) - comparator_bwd (motor_set duty) =
    Z.max (- MOTOR_PWM_RESOLUTION) (Z.min MOTOR_PWM_RESOLUTION duty).
Proof.
  unfold exclusive, motor_set, MOTOR_PWM_RESOLUTION.
  rewrite !Z.gtb_ltb. ltb_cases.
  all: cbn [comparator_fwd comparator_bwd]; lia.
Qed.

(** X10: the order of the two driver calls keeps the bridge safe.  From a
    state with at most one comparator non-zero, after each of the calls of
    [motor_set_left] / [motor_set_right] at most one comparator is
    non-zero (the side to be switched off is written first), and after
    both the comparators hold what [motor_set] computes. *)
Theorem motor_set_calls_keep_exclusive duty m :
  exclusive m ->
  (forall n, exclusive (run_calls (firstn n (motor_set_calls duty)) m)) /\
  run_calls (motor_set_calls duty) m = motor_set duty.
Proof.
  intros Hm. unfold motor_set_calls, motor_set, MOTOR_PWM_RESOLUTION.
  rewrite !Z.gtb_ltb.
  assert (Hcases : forall a b : comparator_t * Z,
            exclusive (run_calls [a] m) -> exclusive (run_calls [a; b] m) ->
            forall n, exclusive (run_calls (firstn n [a; b]) m)).
  { intros a b H1 H2 n. destruct n as [| [| n]]; simpl firstn.
    - exact Hm.
    - exact H1.
    - destruct n; exact H2. }
  ltb_cases.
  all: split;
    [ apply Hcases; unfold exclusive, run_calls;
      cbn [fold_left fst snd mcpwm_comparator_set_compare_value
           comparator_fwd comparator_bwd]; lia
    | reflexivity ].
Qed.

(** X10, witness: reversing a motor that runs forward at 200. *)
Lemma motor_set_calls_keep_exclusive_witness :
  let m := motor_set 200 in
  exclusive m /\
  run_calls (firstn 1 (motor_set_calls (-100))) m =
    {| comparator_fwd := 0; comparator_bwd := 0 |} /\
  (forall n, exclusive (run_calls (firstn n (motor_set_calls (-100))) m)) /\
  run_calls (motor_set_calls (-100)) m = motor_set (-100).
Proof.
  intros m.
  assert (H : exclusive m) by (right; reflexivity).
  split; [exact H |]. split; [reflexivity |].
  exact (motor_set_calls_keep_exclusive (-100) m H).
Defined.

End MotorFacts.

(** ** Odometry, continued *)

Module EncoderMore.

Import CInt CFloat CIntFacts CFloatFacts Encoder EncoderFacts.
Local Open Scope R_scope.

Lemma delta_count_exact c e :
  count_in_range c -> count_in_range (last_count e) ->
  delta_count c e = (c - last_count e)%Z.
Proof.
  unfold count_in_range, delta_count. intros Hc He.
  apply wrap32_small.
  change (2 ^ 30)%Z with 1073741824%Z in *.
  change (2 ^ 31)%Z with 2147483648%Z. lia.
Qed.







(** *** Speed *)

(** X12: a sample taken after a positive elapsed time sets the wheel's rpm
    to 45000 * count delta / elapsed microseconds: the rpm has the sign of
    the count delta and is zero when the count has not moved. *)
Theorem rpm_of_measured_sample now c other st :
  ((0 < delta_time_us now (left_encoder st))%Z ->
   let r := encoder_get_rpm_left (encoder_update now (Some c) other st) in
   let d := delta_count c (left_encoder st) in
   r * IZR (delta_time_us now (left_encoder st)) = 45000 * IZR d /\
   ((d = 0)%Z -> r = 0) /\ ((0 < d)%Z -> 0 < r) /\ ((d < 0)%Z -> r < 0)) /\
  ((0 < delta_time_us now (right_encoder st))%Z ->
   let r := encoder_get_rpm_right (encoder_update now other (Some c) st) in
   let d := delta_count c (right_encoder st) in
   r * IZR (delta_time_us now (right_encoder st)) = 45000 * IZR d /\
   ((d = 0)%Z -> r = 0) /\ ((0 < d)%Z -> 0 < r) /\ ((d < 0)%Z -> r < 0)).
Proof.
  assert (Hwheel : forall e, (0 < delta_time_us now e)%Z ->
            let r := rpm (sample_wheel now (Some c)
                            (wheel_circumference_m st) e) in
            let d := delta_count c e in
            r * IZR (delta_time_us now e) = 45000 * IZR d /\
            ((d = 0)%Z -> r = 0) /\ ((0 < d)%Z -> 0 < r) /\
            ((d < 0)%Z -> r < 0)).
  { intros e Ht. cbv zeta. rewrite sample_wheel_measured by exact Ht.
    cbn [rpm].
    assert (HT : 0 < IZR (delta_time_us now e)) by (apply IZR_lt; exact Ht).
    set (t := IZR (delta_time_us now e)) in *.
    assert (E : IZR (delta_count c e) / ENCODER_CPR / (t / 60000000.0)
                = 45000 * IZR (delta_count c e) / t).
    { unfold ENCODER_CPR, ENCODER_PPR, ENCODER_PULSES_PER_3_REVS.
      assert (E1 : (1000 / 3.0 * 4.0 : R) = 4000 / 3) by lra.
      assert (E2 : (60000000.0 : R) = 60000000) by lra.
      match goal with |- ?a = ?b => change (@eq R a b) end.
      rewrite E1, E2. field. lra. }
    rewrite E.
    assert (Hi : 0 < / t) by (apply Rinv_0_lt_compat; exact HT).
    split; [field; lra |].
    split; [intros Hd; rewrite Hd; unfold Rdiv; lra |].
    split; intros Hd; apply IZR_lt in Hd; unfold Rdiv; nra. }
  unfold encoder_get_rpm_left, encoder_get_rpm_right, encoder_update,
    with_left, with_right.
  cbn [left_encoder right_encoder wheel_circumference_m].
  split; intros Ht; apply Hwheel; exact Ht.
Qed.

(** X12, witness: 1000 counts in 100 ms are 450 rpm. *)
Lemma rpm_of_measured_sample_witness :
  let st := encoder_init 0 0 in
  (0 < delta_time_us 100000 (left_encoder st))%Z /\
  encoder_get_rpm_left (encoder_update 100000 (Some 1000%Z) None st)
    * IZR (delta_time_us 100000 (left_encoder st))
  = 45000 * IZR (delta_count 1000 (left_encoder st)).
Proof.
  intros st.
  assert (H : (0 < delta_time_us 100000 (left_encoder st))%Z)
    by (vm_compute; reflexivity).
  split; [exact H |].
  exact (proj1 (proj1 (rpm_of_measured_sample 100000 1000 None st) H)).
Defined.

(** *** Errors *)

(** X13: sensor errors change nothing.  A sampling call whose two counter
    reads fail leaves the whole state as it was; through any sequence of
    sampling calls in which one wheel's reads all fail, that wheel's
    instance (baseline, rpm, distance) stays as it was, whatever the other
    wheel reads; what a call does to one wheel does not depend on the other
    wheel's reading; and a clear whose driver call fails changes nothing
    and returns the failure. *)
Theorem sensor_errors_change_nothing now st :
  encoder_update now None None st = st /\
  (forall samples,
     Forall (fun s => count_left s = None) samples ->
     left_encoder (encoder_run samples st) = left_encoder st) /\
  (forall samples,
     Forall (fun s => count_right s = None) samples ->
     right_encoder (encoder_run samples st) = right_encoder st) /\
  (forall reading other other',
     left_encoder (encoder_update now reading other st) =
       left_encoder (encoder_update now reading other' st) /\
     right_encoder (encoder_update now other reading st) =
       right_encoder (encoder_update now other' reading st)) /\
  encoder_clear_left ESP_FAIL st = (st, ESP_FAIL) /\
  encoder_clear_right ESP_FAIL st = (st, ESP_FAIL).
Proof.
  split; [destruct st; reflexivity |].
  split.
  { intros samples. revert st.
    induction samples as [| s rest IH]; intros st Hall; [reflexivity |].
    inversion Hall as [| ? ? Hs Hrest]; subst.
    unfold encoder_run in *. cbn [fold_left].
    rewrite (IH _ Hrest). unfold encoder_update_on. rewrite Hs.
    destruct st; reflexivity. }
  split.
  { intros samples. revert st.
    induction samples as [| s rest IH]; intros st Hall; [reflexivity |].
    inversion Hall as [| ? ? Hs Hrest]; subst.
    unfold encoder_run in *. cbn [fold_left].
    rewrite (IH _ Hrest). unfold encoder_update_on. rewrite Hs.
    destruct st; reflexivity. }
  destruct st as [l r d w].
  split; [intros reading other other'; split; reflexivity |].
  split; reflexivity.
Qed.

(** *** Clearing and calibrating *)

(** X14: after a successful clear the odometer restarts from zero.  The
    next measured sample of the cleared wheel (a count within range, after
    a positive elapsed time) sets its cumulative distance to count /
    counts per revolution * circumference, whatever it was before. *)
Theorem distance_restarts_after_clear now c other st :
  count_in_range c ->
  ((0 < delta_time_us now (left_encoder st))%Z ->
   encoder_get_distance_left
     (encoder_update now (Some c) other (fst (encoder_clear_left ESP_OK st)))
   = IZR c / ENCODER_CPR * wheel_circumference_m st) /\
  ((0 < delta_time_us now (right_encoder st))%Z ->
   encoder_get_distance_right
     (encoder_update now other (Some c) (fst (encoder_clear_right ESP_OK st)))
   = IZR c / ENCODER_CPR * wheel_circumference_m st).
Proof.
  intros Hc.
  assert (Hzero : count_in_range 0)
    by (unfold count_in_range; change (2 ^ 30)%Z with 1073741824%Z; lia).
  unfold encoder_get_distance_left, encoder_get_distance_right,
    encoder_update, encoder_clear_left, encoder_clear_right,
    with_left, with_right, clear_instance.
  cbn [fst left_encoder right_encoder wheel_circumference_m].
  split; intros Ht.
  - rewrite sample_wheel_measured by exact Ht.
    cbn [distance_m]. rewrite delta_count_exact by assumption.
    cbn [last_count]. rewrite Z.sub_0_r. lra.
  - rewrite sample_wheel_measured by exact Ht.
    cbn [distance_m]. rewrite delta_count_exact by assumption.
    cbn [last_count]. rewrite Z.sub_0_r. lra.
Qed.

(** X14, witness: a clear after 1000 counts, then a sample that reads 400. *)
Lemma distance_restarts_after_clear_witness :
  let st := encoder_update 100000 (Some 1000%Z) None (encoder_init 0 0) in
  (count_in_range 400 /\ (0 < delta_time_us 200000 (left_encoder st))%Z) /\
  encoder_get_distance_left
    (encoder_update 200000 (Some 400%Z) None
       (fst (encoder_clear_left ESP_OK st)))
  = IZR 400 / ENCODER_CPR * wheel_circumference_m st.
Proof.
  intros st.
  assert (Hc : count_in_range 400)
    by (vm_compute; split; [discriminate | reflexivity]).
  assert (Ht : (0 < delta_time_us 200000 (left_encoder st))%Z).
  { unfold st, encoder_update, with_left, with_right, sample_wheel.
    cbn [left_encoder right_encoder wheel_circumference_m].
    destruct (delta_time_us 100000 (left_encoder (encoder_init 0 0)) >? 0)%Z;
      vm_compute; reflexivity. }
  split; [split; assumption |].
  exact (proj1 (distance_restarts_after_clear 200000 400 None st Hc) Ht).
Defined.

(** X15: [encoder_set_wheel_diameter] sets the circumference to
    pi * diameter / 1000 (positive for a positive diameter) and touches
    neither wheel's instance: the distance already accumulated is kept,
    and only the next measured samples are scaled by the new
    circumference. *)
Theorem wheel_diameter_rescales_future_only diameter_mm st :
  let st' := encoder_set_wheel_diameter diameter_mm st in
  left_encoder st' = left_encoder st /\
  right_encoder st' = right_encoder st /\
  wheel_circumference_m st' * 1000 = Fuzzy.M_PI * diameter_mm /\
  (0 < diameter_mm -> 0 < wheel_circumference_m st') /\
  (forall now c other,
     (0 < delta_time_us now (left_encoder st))%Z ->
     encoder_get_distance_left (encoder_update now (Some c) other st') =
       encoder_get_distance_left st +
       IZR (delta_count c (left_encoder st)) / ENCODER_CPR
         * (Fuzzy.M_PI * diameter_mm / 1000)).
Proof.
  cbv zeta. split; [reflexivity |]. split; [reflexivity |].
  unfold encoder_set_wheel_diameter. cbn [wheel_circumference_m].
  split; [lra |]. split.
  - intros Hd. pose proof FuzzyFacts.two_pi_pos as Hp.
    assert (0 < Fuzzy.M_PI * diameter_mm) by nra. lra.
  - intros now c other Ht.
    unfold encoder_get_distance_left, encoder_update, with_left, with_right.
    cbn [left_encoder right_encoder wheel_circumference_m].
    rewrite sample_wheel_measured by exact Ht. reflexivity.
Qed.

End EncoderMore.

(** ** The callbacks and the control loop, continued *)

Module MainMore.

Import Stdlib.Strings.String.
Import CInt CFloat CIntFacts CFloatFacts Fuzzy FuzzyFacts.
Import Motor Main MainFacts MainCallbacks.

(** *** Configuration messages *)

Lemma presets_drivable c :
  drivable (fuzzy_control_preset_gentle c) /\
  drivable (fuzzy_control_preset_normal c) /\
  drivable (fuzzy_control_preset_aggressive c) /\
  drivable (fuzzy_control_preset_precision c).
Proof.
  unfold drivable, config_invariant, MOTOR_PWM_RESOLUTION.
  unfold fuzzy_control_preset_gentle, fuzzy_control_preset_normal,
    fuzzy_control_preset_aggressive, fuzzy_control_preset_precision,
    run_assignments, preset_gentle_assignments, preset_normal_assignments,
    preset_aggressive_assignments, preset_precision_assignments.
  cbn [fold_left].
  unfold set_mode, set_curve, set_dead_zone, set_turn_factor, set_max_duty,
    set_min_duty.
  cbn [mode curve dead_zone turn_factor max_duty min_duty
       invert_left invert_right].
  repeat match goal with |- _ /\ _ => split end; try lra; try lia.
Qed.

(** What one configuration message does. *)
Lemma websocket_config_callback_step msg c :
  drivable c ->
  let c' := websocket_config_callback msg c in
  drivable c' /\
  invert_left c' = invert_left c /\ invert_right c' = invert_right c /\
  (param_name msg <> "preset"%string ->
   curve c' = curve c /\ dead_zone c' = dead_zone c /\
   turn_factor c' = turn_factor c /\
   max_duty c' = max_duty c /\ min_duty c' = min_duty c) /\
  (~ recognised msg -> c' = c).
Proof.
  intros Hc. cbv zeta.
  destruct (presets_drivable c) as (Hg & Hn & Ha & Hp).
  unfold websocket_config_callback, recognised, mode_values, preset_values.
  repeat match goal with
         | |- context [String.eqb ?a ?b] =>
             destruct (String.eqb_spec a b)
         end;
    (split; [assumption |]);
    (split; [reflexivity |]); (split; [reflexivity |]);
    (split; [intros Hne; try congruence; repeat split |]);
    intros Hun; try reflexivity; exfalso; apply Hun; simpl;
    repeat match goal with H : _ = _ |- _ => rewrite H; clear H end; tauto.
Qed.

(** X16: configuration messages cannot break the configuration.  From a
    configuration that satisfies the data-model invariants with a dead zone
    below 1 and a maximum duty within the PWM resolution, any sequence of
    configuration messages leads to such a configuration again; the
    inversion flags are never changed; without a "preset" message only the
    mode can change; and messages whose parameter or value is not one of
    the known ones (the comparison is exact, so "Arcade" is not known)
    change nothing at all. *)
Theorem config_messages_keep_drivable msgs c :
  drivable c ->
  let c' := config_run msgs c in
  drivable c' /\
  invert_left c' = invert_left c /\ invert_right c' = invert_right c /\
  (Forall (fun msg => param_name msg <> "preset"%string) msgs ->
   curve c' = curve c /\ dead_zone c' = dead_zone c /\
   turn_factor c' = turn_factor c /\
   max_duty c' = max_duty c /\ min_duty c' = min_duty c) /\
  (Forall (fun msg => ~ recognised msg) msgs -> c' = c).
Proof.
  cbv zeta. revert c.
  induction msgs as [| msg rest IH]; intros c Hc.
  - unfold config_run. cbn [fold_left]. split; [exact Hc |].
    split; [reflexivity |]. split; [reflexivity |].
    split; [intros _; repeat split | intros _; reflexivity].
  - unfold config_run in *. cbn [fold_left].
    destruct (websocket_config_callback_step msg c Hc)
      as (Hd & Hl & Hr & Hkeep & Hun).
    destruct (IH _ Hd) as (Hd' & Hl' & Hr' & Hkeep' & Hun').
    split; [exact Hd' |].
    split; [congruence |]. split; [congruence |]. split.
    + intros Hall. inversion Hall as [| ? ? H1 H2]; subst.
      destruct (Hkeep H1) as (K1 & K2 & K3 & K4 & K5).
      destruct (Hkeep' H2) as (L1 & L2 & L3 & L4 & L5).
      repeat split; congruence.
    + intros Hall. inversion Hall as [| ? ? H1 H2]; subst.
      rewrite (Hun' H2). exact (Hun H1).
Qed.

(** X16, witness: from the "normal" preset, a mode change, a misspelt
    value and the "precision" preset. *)
Lemma config_messages_keep_drivable_witness :
  let msgs := [ {| param_name := "control_mode"; param_value := "tank" |};
                {| param_name := "control_mode"; param_value := "Arcade" |};
                {| param_name := "preset"; param_value := "precision" |} ] in
  drivable normal_config /\
  config_run msgs normal_config = precision_config /\
  drivable (config_run msgs normal_config).
Proof.
  intros msgs.
  assert (H : drivable normal_config)
    by exact (proj1 (proj2 (presets_drivable fuzzy_control_init))).
  split; [exact H |]. split; [reflexivity |].
  exact (proj1 (config_messages_keep_drivable msgs normal_config H)).
Defined.

(** *** Bursts of commands *)

Lemma receive_all_whole q : forall n,
  (List.length q <= n)%nat -> receive_all n q = q.
Proof.
  induction q as [| item rest IH]; intros n Hn.
  - destruct n; reflexivity.
  - destruct n as [| n]; [simpl in Hn; lia |].
    cbn [receive_all xQueueReceive]. rewrite IH; [reflexivity |].
    simpl in Hn. lia.
Qed.

Lemma firstn_full {A : Type} (q rest : list A) :
  firstn (List.length q) (q ++ rest) = q.
Proof.
  rewrite firstn_app, Nat.sub_diag, firstn_all. cbn [firstn].
  apply app_nil_r.
Qed.

(** X17: the relay keeps the oldest ten of a burst.  When control messages
    arrive with no turn of the Control Loop in between, the queue holds
    what was pending followed by the new commands, cut after the tenth:
    the later commands are the ones lost.  The loop then receives the
    queued commands in the order they were pushed, and the pushes change
    nothing but the queue. *)
Theorem relay_burst_keeps_first_ten cmds st :
  (List.length (joystick_queue st) <= JOYSTICK_QUEUE_LENGTH)%nat ->
  let st' := relay_run cmds st in
  joystick_queue st' =
    firstn JOYSTICK_QUEUE_LENGTH (joystick_queue st ++ cmds) /\
  (List.length (joystick_queue st') <= JOYSTICK_QUEUE_LENGTH)%nat /\
  receive_all JOYSTICK_QUEUE_LENGTH (joystick_queue st') =
    firstn JOYSTICK_QUEUE_LENGTH (joystick_queue st ++ cmds) /\
  current_left_pwm st' = current_left_pwm st /\
  current_right_pwm st' = current_right_pwm st /\
  motors st' = motors st /\ current_config st' = current_config st.
Proof.
  cbv zeta. revert st.
  assert (Hgoal : forall st,
            (List.length (joystick_queue st) <= JOYSTICK_QUEUE_LENGTH)%nat ->
            joystick_queue (relay_run cmds st) =
              firstn JOYSTICK_QUEUE_LENGTH (joystick_queue st ++ cmds) /\
            current_left_pwm (relay_run cmds st) = current_left_pwm st /\
            current_right_pwm (relay_run cmds st) = current_right_pwm st /\
            motors (relay_run cmds st) = motors st /\
            current_config (relay_run cmds st) = current_config st).
  { induction cmds as [| cmd rest IH]; intros st Hlen.
    - unfold relay_run. cbn [fold_left]. rewrite app_nil_r.
      rewrite firstn_all2 by exact Hlen. repeat split.
    - unfold relay_run in *. cbn [fold_left].
      unfold websocket_control_callback at 2 4 6 8 10.
      destruct (Nat.lt_ge_cases (List.length (joystick_queue st))
                  JOYSTICK_QUEUE_LENGTH) as [Hroom | Hfull].
      + rewrite xQueueSend_room by exact Hroom. cbn [fst].
        destruct (IH (with_queue (joystick_queue st ++ [cmd]) st))
          as (Hq & H1 & H2 & H3 & H4).
        { cbn [joystick_queue with_queue]. rewrite length_app.
          cbn [List.length]. lia. }
        rewrite Hq, H1, H2, H3, H4. cbn [joystick_queue with_queue].
        rewrite <- app_assoc. repeat split.
      + rewrite xQueueSend_full by exact Hfull. cbn [fst].
        destruct (IH (with_queue (joystick_queue st) st))
          as (Hq & H1 & H2 & H3 & H4).
        { cbn [joystick_queue with_queue]. exact Hlen. }
        rewrite Hq, H1, H2, H3, H4. cbn [joystick_queue with_queue].
        assert (E : List.length (joystick_queue st) = JOYSTICK_QUEUE_LENGTH)
          by lia.
        rewrite <- E, !firstn_full. repeat split. }
  intros st Hlen. destruct (Hgoal st Hlen) as (Hq & H1 & H2 & H3 & H4).
  split; [exact Hq |].
  assert (Hle : (List.length (joystick_queue (relay_run cmds st))
                 <= JOYSTICK_QUEUE_LENGTH)%nat).
  { rewrite Hq. apply firstn_le_length. }
  split; [exact Hle |].
  split; [rewrite receive_all_whole by exact Hle; exact Hq |].
  repeat split; assumption.
Qed.

(** X17, witness: twelve commands pushed into the empty relay; the ten
    stamped 1 to 10 are received, in that order. *)
Lemma relay_burst_keeps_first_ten_witness :
  let cmds := map forward_cmd [1; 2; 3; 4; 5; 6; 7; 8; 9; 10; 11; 12]%Z in
  (List.length (joystick_queue initial_state) <= JOYSTICK_QUEUE_LENGTH)%nat /\
  receive_all JOYSTICK_QUEUE_LENGTH
    (joystick_queue (relay_run cmds initial_state)) =
  map forward_cmd [1; 2; 3; 4; 5; 6; 7; 8; 9; 10]%Z.
Proof.
  intros cmds.
  assert (H : (List.length (joystick_queue initial_state)
               <= JOYSTICK_QUEUE_LENGTH)%nat).
  { unfold initial_state, xQueueCreate, JOYSTICK_QUEUE_LENGTH.
    cbn [joystick_queue List.length]. lia. }
  split; [exact H |].
  rewrite (proj1 (proj2 (proj2
             (relay_burst_keeps_first_ten cmds initial_state H)))).
  reflexivity.
Defined.

(** *** One turn of the Control Loop *)

Local Open Scope Z_scope.

(** The Drive Mapper on a drivable configuration, for an angle up to which
    the loops of [normalize_angle] end. *)
Lemma fuzzy_control_process_drivable c angle magnitude :
  drivable c -> (Rabs angle <= 134217728)%R -> (0 <= magnitude <= 1)%R ->
  exists out,
    fuzzy_control_process c angle magnitude = Some out /\
    Z.abs (left_duty out) <= max_duty c /\
    Z.abs (right_duty out) <= max_duty c.
Proof.
  intros ((Hdz & Htf & Hduty) & Hlt & Hmax) Hangle Hmag.
  unfold MOTOR_PWM_RESOLUTION in Hmax.
  assert (HM : 0 <= max_duty c <= INT16_MAX) by (unfold INT16_MAX; lia).
  destruct (normalize_angle_ends angle Hangle) as (theta & Eth & Bth).
  unfold fuzzy_control_process.
  destruct (apply_dead_zone_unit magnitude (dead_zone c)) as [m [Em Hm]];
    [lra | exact Hmag |].
  rewrite Em. cbn [bind]. unfold process_rescaled.
  destruct (Req_dec_T m 0) as [Hz | Hnz].
  - exists {| left_duty := 0; right_duty := 0 |}. split; [reflexivity |].
    cbn [left_duty right_duty]. lia.
  - destruct (apply_curve_unit m (curve c) Hm) as [m' [Ec Hm']].
    rewrite Ec. cbn [bind].
    rewrite Eth. cbn [bind].
    destruct (process_mode_bounded theta m' c Bth Htf HM Hm')
      as [out [Eo [Bl Br]]].
    rewrite Eo. cbn [bind]. eexists. split; [reflexivity |].
    cbn [left_duty right_duty].
    split; apply inversion_within; try (unfold INT16_MAX; lia);
      apply apply_min_duty_within; unfold INT16_MAX; lia.
Qed.

(** The driver on a duty within the PWM resolution. *)
Lemma motor_set_within duty :
  Z.abs duty <= MOTOR_PWM_RESOLUTION ->
  exclusive (motor_set duty) /\
  comparator_fwd (motor_set duty) - comparator_bwd (motor_set duty) = duty.
Proof.
  unfold exclusive, motor_set, MOTOR_PWM_RESOLUTION. intros Hd.
  rewrite !Z.gtb_ltb. MotorFacts.ltb_cases.
  all: cbn [comparator_fwd comparator_bwd]; lia.
Qed.

(** X18: what a turn of the Control Loop drives is what it records.  With
    a drivable configuration and a received command whose angle is at most
    2^27 = 134217728 rad in absolute value (up to which the loops of
    [normalize_angle] end) and whose magnitude is in [0,1], the turn is
    defined; each motor has at most one comparator non-zero; the signed
    duty on each motor (forward minus backward) is the duty recorded for
    telemetry, at most [max_duty] in absolute value; and the configuration
    is not changed. *)
Theorem control_turn_drives_recorded_duties hz arrival st :
  drivable (current_config st) ->
  (forall cmd, received_item (control_receive hz arrival st) = Some cmd ->
     (Rabs (angle cmd) <= 134217728 /\ 0 <= magnitude cmd <= 1)%R) ->
  exists st',
    motor_control_iteration hz arrival st = Some st' /\
    current_config st' = current_config st /\
    Z.abs (current_left_pwm st') <= max_duty (current_config st) /\
    Z.abs (current_right_pwm st') <= max_duty (current_config st) /\
    exclusive (left_motor (motors st')) /\
    exclusive (right_motor (motors st')) /\
    comparator_fwd (left_motor (motors st'))
      - comparator_bwd (left_motor (motors st')) = current_left_pwm st' /\
    comparator_fwd (right_motor (motors st'))
      - comparator_bwd (right_motor (motors st')) = current_right_pwm st'.
Proof.
  intros Hc Hmag. unfold motor_control_iteration.
  destruct (control_receive hz arrival st) as [[received q] waited].
  unfold received_item in Hmag. cbn [fst] in Hmag.
  pose proof Hc as ((_ & _ & Hduty) & _ & Hmax).
  destruct received as [cmd |].
  - destruct (Hmag cmd eq_refl) as [Hangle Hunit].
    destruct (fuzzy_control_process_drivable (current_config st)
                (angle cmd) (magnitude cmd) Hc Hangle Hunit)
      as [out [Eo [Bl Br]]].
    rewrite Eo. eexists. split; [reflexivity |].
    cbn [current_config current_left_pwm current_right_pwm motors].
    unfold motor_set_left, motor_set_right.
    cbn [left_motor right_motor].
    destruct (motor_set_within (left_duty out)) as [El Dl]; [lia |].
    destruct (motor_set_within (right_duty out)) as [Er Dr]; [lia |].
    repeat split; assumption.
  - eexists. split; [reflexivity |].
    cbn [current_config current_left_pwm current_right_pwm motors].
    unfold motor_stop, motor_set_left, motor_set_right.
    cbn [left_motor right_motor].
    destruct (motor_set_within 0) as [E0 D0];
      [unfold MOTOR_PWM_RESOLUTION; lia |].
    repeat split; try assumption; lia.
Qed.

(** X18, witness: a full-forward command arrives 50 ticks into the wait of
    the first turn. *)
Lemma control_turn_drives_recorded_duties_witness :
  let arrival := Some (50, forward_cmd 7) in
  (drivable (current_config initial_state) /\
   received_item (control_receive 1000 arrival initial_state) =
     Some (forward_cmd 7) /\
   (Rabs (angle (forward_cmd 7)) <= 134217728 /\
    0 <= magnitude (forward_cmd 7) <= 1)%R) /\
  exists st',
    motor_control_iteration 1000 arrival initial_state = Some st' /\
    current_config st' = current_config initial_state /\
    Z.abs (current_left_pwm st') <= max_duty (current_config initial_state) /\
    Z.abs (current_right_pwm st') <= max_duty (current_config initial_state) /\
    exclusive (left_motor (motors st')) /\
    exclusive (right_motor (motors st')) /\
    comparator_fwd (left_motor (motors st'))
      - comparator_bwd (left_motor (motors st')) = current_left_pwm st' /\
    comparator_fwd (right_motor (motors st'))
      - comparator_bwd (right_motor (motors st')) = current_right_pwm st'.
Proof.
  intros arrival.
  assert (Hc : drivable (current_config initial_state))
    by exact (proj1 (proj2 (presets_drivable fuzzy_control_init))).
  assert (Hr : received_item (control_receive 1000 arrival initial_state) =
               Some (forward_cmd 7)) by reflexivity.
  assert (Hm : (Rabs (angle (forward_cmd 7)) <= 134217728 /\
                0 <= magnitude (forward_cmd 7) <= 1)%R).
  { cbn [angle magnitude forward_cmd].
    pose proof PI_RGT_0. pose proof PI_4.
    split; [rewrite Rabs_right; lra | lra]. }
  split; [split; [exact Hc | split; [exact Hr | exact Hm]] |].
  apply (control_turn_drives_recorded_duties 1000 arrival initial_state Hc).
  intros cmd Hcmd. rewrite Hr in Hcmd. injection Hcmd as <-. exact Hm.
Defined.

End MainMore.

(** ** The client table of the WebSocket server, properties *)

Module WebSocketFacts.

Import CInt CIntFacts WebSocket.
Local Open Scope Z_scope.

(** *** Slots *)

Lemma update_slot_length f l : forall k,
  length (update_slot k f l) = length l.
Proof.
  induction l as [| s rest IH]; intros [| k]; cbn [update_slot length];
    auto.
Qed.

Lemma Forall_update_slot (P : ws_client_info_t -> Prop) f l : forall k,
  Forall P l -> (forall s, P s -> P (f s)) -> Forall P (update_slot k f l).
Proof.
  induction l as [| s rest IH]; intros k Hl Hf; [destruct k; exact Hl |].
  inversion Hl as [| ? ? Hs Hrest]; subst.
  destruct k as [| k]; cbn [update_slot]; constructor; auto.
Qed.

(** The connected slots around slot [k], before and after an assignment
    to it. *)
Lemma tracked_split l : forall k s,
  nth_error l k = Some s ->
  filter connected l =
    filter connected (firstn k l) ++ (if connected s then [s] else [])
      ++ filter connected (skipn (S k) l).
Proof.
  induction l as [| x rest IH]; intros [| k] s Hk; try discriminate.
  - cbn in Hk. injection Hk as ->. cbn [firstn skipn filter app].
    destruct (connected s); reflexivity.
  - cbn [nth_error] in Hk. cbn [firstn skipn filter].
    rewrite (IH k s Hk). destruct (connected x); reflexivity.
Qed.

Lemma tracked_update f l : forall k s,
  nth_error l k = Some s ->
  filter connected (update_slot k f l) =
    filter connected (firstn k l) ++ (if connected (f s) then [f s] else [])
      ++ filter connected (skipn (S k) l).
Proof.
  induction l as [| x rest IH]; intros [| k] s Hk; try discriminate.
  - cbn in Hk. injection Hk as ->. cbn [firstn skipn filter app update_slot].
    destruct (connected (f s)); reflexivity.
  - cbn [nth_error] in Hk. cbn [firstn skipn filter update_slot].
    rewrite (IH k s Hk). destruct (connected x); reflexivity.
Qed.

(** *** The two searches *)

Lemma first_free_from_shift l : forall i,
  first_free_from (S i) l = option_map S (first_free_from i l).
Proof.
  induction l as [| s rest IH]; intros i; cbn [first_free_from];
    [reflexivity |].
  destruct (connected s); cbn [negb option_map]; [apply IH | reflexivity].
Qed.

(** [add_client] picks the first slot that is not connected; it finds
    none exactly when every slot is connected. *)
Lemma first_free_spec l :
  match first_free_from 0 l with
  | Some k =>
      exists s, nth_error l k = Some s /\ connected s = false /\
                filter connected (firstn k l) = firstn k l
  | None => filter connected l = l
  end.
Proof.
  induction l as [| x rest IH]; [reflexivity |].
  cbn [first_free_from]. destruct (connected x) eqn:Ex; cbn [negb].
  - rewrite first_free_from_shift.
    destruct (first_free_from 0 rest) as [k |]; cbn [option_map].
    + destruct IH as (s & Hk & Hs & Hbefore). exists s.
      cbn [nth_error firstn filter]. rewrite Ex, Hbefore. auto.
    + cbn [filter]. rewrite Ex, IH. reflexivity.
  - exists x. cbn. auto.
Qed.

(** [find_client_slot] returns -1 when no slot, connected or not, holds
    the descriptor, and otherwise the index of the first slot that holds
    it. *)
Lemma find_slot_from_spec l : forall i fd0,
  (find_slot_from i l fd0 = -1 /\ Forall (fun s => fd s <> fd0) l) \/
  (exists k s,
     find_slot_from i l fd0 = i + Z.of_nat k /\
     nth_error l k = Some s /\ fd s = fd0 /\
     Forall (fun s => fd s <> fd0) (firstn k l)).
Proof.
  induction l as [| x rest IH]; intros i fd0; [left; split; constructor |].
  cbn [find_slot_from]. destruct (Z.eqb_spec (fd x) fd0) as [E | N].
  - right. exists 0%nat, x. cbn. repeat split; [lia | exact E | constructor].
  - destruct (IH (i + 1) fd0) as [[H1 H2] | (k & s & H1 & H2 & H3 & H4)].
    + left. split; [exact H1 | constructor; assumption].
    + right. exists (S k), s. cbn [nth_error firstn].
      repeat split; [lia | exact H2 | exact H3 | constructor; assumption].
Qed.

(** *** Consistency *)

Lemma tracked_le st :
  (length (tracked st) <= length (connected_clients st))%nat.
Proof. apply filter_length_le. Qed.

Lemma add_client_effect fd0 now st :
  table_consistent st ->
  match first_free_from 0 (connected_clients st) with
  | Some k =>
      exists s, nth_error (connected_clients st) k = Some s /\
        connected s = false /\
        client_count st < Z.of_nat WS_MAX_CLIENTS /\
        client_count (add_client fd0 now st) = client_count st + 1 /\
        tracked (add_client fd0 now st) =
          filter connected (firstn k (connected_clients st))
            ++ [{| fd := fd0; connected := true; last_ping := now |}]
            ++ filter connected (skipn (S k) (connected_clients st)) /\
        tracked st =
          filter connected (firstn k (connected_clients st))
            ++ filter connected (skipn (S k) (connected_clients st))
  | None =>
      add_client fd0 now st = st /\
      client_count st = Z.of_nat WS_MAX_CLIENTS
  end.
Proof.
  intros (Hlen & Hcount & Hzero). unfold add_client.
  pose proof (first_free_spec (connected_clients st)) as Hfree.
  destruct (first_free_from 0 (connected_clients st)) as [k |].
  - destruct Hfree as (s & Hk & Hs & _). exists s.
    pose proof (tracked_split _ _ _ Hk) as Hsplit. rewrite Hs in Hsplit.
    cbn [app] in Hsplit.
    assert (Hlt : client_count st < Z.of_nat WS_MAX_CLIENTS).
    { rewrite Hcount. unfold tracked. rewrite Hsplit, <- Hlen.
      rewrite <- (firstn_skipn_middle _ _ Hk) at 3.
      rewrite !length_app. cbn [length].
      pose proof (filter_length_le connected
                    (firstn k (connected_clients st))).
      pose proof (filter_length_le connected
                    (skipn (S k) (connected_clients st))).
      lia. }
    split; [exact Hk |]. split; [exact Hs |]. split; [exact Hlt |].
    cbn [client_count]. unfold tracked at 1. cbn [connected_clients].
    split.
    + apply wrap32_small. unfold WS_MAX_CLIENTS in Hlt. lia.
    + split; [| exact Hsplit].
      rewrite (tracked_update _ _ _ _ Hk). reflexivity.
  - split; [reflexivity |].
    rewrite Hcount. unfold tracked. rewrite Hfree, Hlen. reflexivity.
Qed.

Lemma add_client_consistent fd0 now st :
  table_consistent st -> table_consistent (add_client fd0 now st).
Proof.
  intros Hc. pose proof (add_client_effect fd0 now st Hc) as He.
  pose proof Hc as (Hlen & Hcount & Hzero).
  unfold add_client in *.
  destruct (first_free_from 0 (connected_clients st)) as [k |];
    [| exact Hc].
  destruct He as (s & Hk & Hs & Hlt & Hcnt & Hnew & Hold).
  split; [| split].
  - cbn [connected_clients]. rewrite update_slot_length. exact Hlen.
  - rewrite Hcnt, Hnew, Hcount, Hold. rewrite !length_app.
    cbn [length]. lia.
  - cbn [connected_clients]. apply Forall_update_slot; [exact Hzero |].
    intros _ _. cbn [connected]. discriminate.
Qed.

(** What [remove_client] does with a descriptor that a slot holds. *)
Lemma remove_client_found fd0 st k s :
  find_client_slot fd0 st = Z.of_nat k ->
  nth_error (connected_clients st) k = Some s ->
  remove_client fd0 st =
    {| server := server st;
       connected_clients :=
         update_slot k
           (fun s => {| fd := 0; connected := false;
                        last_ping := last_ping s |})
           (connected_clients st);
       client_count := wrap32 (client_count st - 1) |} /\
  tracked (remove_client fd0 st) =
    filter connected (firstn k (connected_clients st))
      ++ filter connected (skipn (S k) (connected_clients st)).
Proof.
  intros Hfind Hk. unfold remove_client. rewrite Hfind.
  assert (Hge : (Z.of_nat k >=? 0) = true)
    by (rewrite Z.geb_leb; apply Z.leb_le; lia).
  rewrite Hge, Nat2Z.id. split; [reflexivity |].
  unfold tracked. cbn [connected_clients].
  rewrite (tracked_update _ _ _ _ Hk). reflexivity.
Qed.

Lemma remove_client_missing fd0 st :
  find_client_slot fd0 st = -1 -> remove_client fd0 st = st.
Proof. intros H. unfold remove_client. rewrite H. reflexivity. Qed.

Lemma remove_client_consistent fd0 st :
  fd0 <> 0 -> table_consistent st -> table_consistent (remove_client fd0 st).
Proof.
  intros Hfd Hc. pose proof Hc as (Hlen & Hcount & Hzero).
  destruct (find_slot_from_spec (connected_clients st) 0 fd0)
    as [[Hnone _] | (k & s & Hfind & Hk & Hs & _)].
  - rewrite remove_client_missing by exact Hnone. exact Hc.
  - destruct (remove_client_found fd0 st k s Hfind Hk) as [Est Htr].
    assert (Hcon : connected s = true).
    { destruct (connected s) eqn:E; [reflexivity |]. exfalso. apply Hfd.
      rewrite <- Hs. rewrite Forall_forall in Hzero.
      apply Hzero; [eapply nth_error_In; exact Hk | exact E]. }
    pose proof (tracked_split _ _ _ Hk) as Hsplit. rewrite Hcon in Hsplit.
    split; [| split].
    + rewrite Est. cbn [connected_clients]. rewrite update_slot_length.
      exact Hlen.
    + rewrite Htr. rewrite Est. cbn [client_count].
      rewrite Hcount. unfold tracked. rewrite Hsplit.
      rewrite !length_app. cbn [length].
      pose proof (tracked_le st) as Hle. unfold tracked in Hle.
      rewrite Hsplit, Hlen, !length_app in Hle. cbn [length] in Hle.
      unfold WS_MAX_CLIENTS in Hle.
      rewrite wrap32_small by lia. lia.
    + rewrite Est. cbn [connected_clients].
      apply Forall_update_slot; [exact Hzero |].
      intros ? _ _. reflexivity.
Qed.

Lemma ping_clients_consistent now st :
  table_consistent st ->
  table_consistent (snd (websocket_server_ping_clients now st)).
Proof.
  intros Hc. pose proof Hc as (Hlen & Hcount & Hzero).
  unfold websocket_server_ping_clients.
  destruct (negb (server st) || (client_count st =? 0)); [exact Hc |].
  cbn [snd].
  assert (Hsame : forall l,
            length (filter connected
                      (map (fun s => if connected s
                                     then {| fd := fd s;
                                             connected := connected s;
                                             last_ping := now |}
                                     else s) l)) =
            length (filter connected l)).
  { induction l as [| x rest IH]; [reflexivity |].
    cbn [map filter]. destruct (connected x) eqn:E.
    - cbn [connected length]. rewrite IH. reflexivity.
    - rewrite E. exact IH. }
  split; [| split].
  - cbn [connected_clients]. rewrite length_map. exact Hlen.
  - unfold tracked. cbn [connected_clients client_count].
    rewrite Hsame. exact Hcount.
  - cbn [connected_clients]. rewrite Forall_map.
    revert Hzero. apply Forall_impl. intros s Hs.
    destruct (connected s) eqn:E; [cbn [connected fd]; congruence |].
    intros _. apply Hs. reflexivity.
Qed.

Lemma initial_table_consistent b :
  table_consistent
    {| server := b; connected_clients := repeat empty_slot WS_MAX_CLIENTS;
       client_count := 0 |}.
Proof.
  split; [reflexivity |]. split; [reflexivity |].
  cbn. repeat constructor.
Qed.

Lemma ws_step_consistent st ev :
  table_consistent st ->
  match ev with Close fd0 => fd0 <> 0 | _ => True end ->
  table_consistent (ws_step st ev).
Proof.
  intros Hc Hev. destruct ev as [fd0 now | fd0 | now | ok |]; cbn [ws_step].
  - apply add_client_consistent, Hc.
  - apply remove_client_consistent; assumption.
  - apply ping_clients_consistent, Hc.
  - unfold websocket_server_start.
    destruct (server st); [exact Hc |]. destruct ok; exact Hc.
  - unfold websocket_server_stop.
    destruct (server st); [apply initial_table_consistent | exact Hc].
Qed.

Lemma get_clients_from_all l : forall count max_clients,
  count + Z.of_nat (length (filter connected l)) <= max_clients ->
  get_clients_from l count max_clients = filter connected l.
Proof.
  induction l as [| x rest IH]; intros count max_clients Hle;
    [reflexivity |].
  cbn [get_clients_from filter] in *.
  destruct (connected x) eqn:E.
  - cbn [length] in Hle.
    destruct (Z.ltb_spec count max_clients); [| lia].
    rewrite IH by lia. reflexivity.
  - destruct (Z.ltb_spec count max_clients).
    + apply IH. exact Hle.
    + destruct (filter connected rest) eqn:Ef; [reflexivity |].
      cbn [length] in Hle. lia.
Qed.

(** X19: the client count tracks the connected slots.  From a consistent
    table (as the zero-initialised one is), through any sequence of
    handshakes, close frames from descriptors other than 0, pings, starts
    and stops, the table stays consistent: [client_count] is the number of
    connected slots, between 0 and [WS_MAX_CLIENTS]; a telemetry broadcast
    of the running server goes to exactly the connected slots'
    descriptors; and [websocket_server_get_clients] with room for all
    returns exactly the connected slots. *)
Theorem client_count_tracks_connected evs st :
  table_consistent st -> closes_nonzero evs ->
  let st' := ws_run evs st in
  table_consistent st' /\
  0 <= websocket_server_get_client_count st' <= Z.of_nat WS_MAX_CLIENTS /\
  (server st' = true ->
   websocket_server_broadcast_telemetry st' = map fd (tracked st')) /\
  websocket_server_get_clients (Z.of_nat WS_MAX_CLIENTS) st' = tracked st'.
Proof.
  intros Hc Hevs. cbv zeta.
  assert (Hc' : table_consistent (ws_run evs st)).
  { revert st Hc. unfold ws_run.
    induction Hevs as [| ev rest Hev Hrest IH]; intros st Hc; [exact Hc |].
    cbn [fold_left]. apply IH. apply ws_step_consistent; assumption. }
  split; [exact Hc' |].
  destruct Hc' as (Hlen & Hcount & _).
  pose proof (tracked_le (ws_run evs st)) as Hle. rewrite Hlen in Hle.
  unfold websocket_server_get_client_count.
  split; [rewrite Hcount; lia |]. split.
  - intros Hs. unfold websocket_server_broadcast_telemetry.
    rewrite Hs. cbn [negb orb].
    destruct (Z.eqb_spec (client_count (ws_run evs st)) 0) as [E | N];
      [| reflexivity].
    rewrite Hcount in E.
    destruct (tracked (ws_run evs st)); [reflexivity | discriminate].
  - unfold websocket_server_get_clients. apply get_clients_from_all.
    fold (tracked (ws_run evs st)). lia.
Qed.

(** X19, witness: two clients connect, one leaves, the clients are
    pinged. *)
Lemma client_count_tracks_connected_witness :
  let st := websocket_server_start true initial_server in
  let evs := [Handshake 54 100; Handshake 55 200; Close 54; Ping 300] in
  (table_consistent st /\ closes_nonzero evs) /\
  table_consistent (ws_run evs st) /\
  0 <= websocket_server_get_client_count (ws_run evs st)
    <= Z.of_nat WS_MAX_CLIENTS /\
  (server (ws_run evs st) = true ->
   websocket_server_broadcast_telemetry (ws_run evs st) =
     map fd (tracked (ws_run evs st))) /\
  websocket_server_get_clients (Z.of_nat WS_MAX_CLIENTS) (ws_run evs st) =
    tracked (ws_run evs st).
Proof.
  intros st evs.
  assert (H1 : table_consistent st) by apply (initial_table_consistent true).
  assert (H2 : closes_nonzero evs).
  { unfold evs, closes_nonzero. repeat constructor. discriminate. }
  split; [split; [exact H1 | exact H2] |].
  exact (client_count_tracks_connected evs st H1 H2).
Defined.


(** X20: a new client is tracked while a slot is free and ignored when
    none is.  On a consistent table with fewer than [WS_MAX_CLIENTS]
    clients, [add_client] raises the count by one, the new descriptor is
    among the connected slots and every client tracked before still is;
    with [WS_MAX_CLIENTS] clients tracked the call changes nothing, so the
    extra client is in no broadcast. *)
Theorem add_client_tracks_or_ignores fd0 now st :
  table_consistent st ->
  let st' := add_client fd0 now st in
  (client_count st < Z.of_nat WS_MAX_CLIENTS ->
   client_count st' = client_count st + 1 /\
   In fd0 (map fd (tracked st')) /\
   (forall s, In s (tracked st) -> In s (tracked st'))) /\
  (client_count st = Z.of_nat WS_MAX_CLIENTS -> st' = st).
Proof.
  intros Hc. cbv zeta.
  pose proof (add_client_effect fd0 now st Hc) as He.
  destruct (first_free_from 0 (connected_clients st)) as [k |].
  - destruct He as (s & Hk & Hs & Hlt & Hcnt & Hnew & Hold). split.
    + intros _. split; [exact Hcnt |]. rewrite Hnew, Hold. split.
      * rewrite !map_app. apply in_or_app. right.
        apply in_or_app. left. left. reflexivity.
      * intros x Hx. apply in_app_or in Hx. apply in_or_app.
        destruct Hx as [Hx | Hx]; [left; exact Hx |].
        right. apply in_or_app. right. exact Hx.
    + intros Hfull. lia.
  - destruct He as [Hsame Hfull]. split; [intros Hlt; lia |].
    intros _. exact Hsame.
Qed.

(** X20, witness: four clients connect to the empty table; a fifth is
    ignored. *)
Lemma add_client_tracks_or_ignores_witness :
  let full := ws_run [Handshake 54 10; Handshake 55 20; Handshake 56 30;
                      Handshake 57 40] initial_server in
  (table_consistent initial_server /\ table_consistent full /\
   client_count initial_server < Z.of_nat WS_MAX_CLIENTS /\
   client_count full = Z.of_nat WS_MAX_CLIENTS) /\
  In 54 (map fd (tracked (add_client 54 10 initial_server))) /\
  add_client 58 50 full = full.
Proof.
  intros full.
  assert (H0 : table_consistent initial_server)
    by apply (initial_table_consistent false).
  assert (H4 : table_consistent full).
  { unfold full, ws_run. cbn [fold_left ws_step].
    repeat apply add_client_consistent. exact H0. }
  assert (Hlt : client_count initial_server < Z.of_nat WS_MAX_CLIENTS)
    by reflexivity.
  assert (Hfull : client_count full = Z.of_nat WS_MAX_CLIENTS)
    by reflexivity.
  split; [split; [exact H0 | split; [exact H4 | split; assumption]] |].
  split.
  - exact (proj1 (proj2
             (proj1 (add_client_tracks_or_ignores 54 10 initial_server H0)
                Hlt))).
  - exact (proj2 (add_client_tracks_or_ignores 58 50 full H4) Hfull).
Defined.

(** *** A handshake and its close frame *)

Lemma nth_error_update_slot f l : forall k s,
  nth_error l k = Some s -> nth_error (update_slot k f l) k = Some (f s).
Proof.
  induction l as [| x rest IH]; intros [| k] s Hk; try discriminate.
  - cbn in Hk. injection Hk as ->. reflexivity.
  - cbn [nth_error update_slot] in *. apply IH. exact Hk.
Qed.

Lemma firstn_update_slot f l : forall k,
  firstn k (update_slot k f l) = firstn k l.
Proof.
  induction l as [| x rest IH]; intros [| k]; try reflexivity.
  cbn [firstn update_slot]. rewrite IH. reflexivity.
Qed.

Lemma skipn_update_slot f l : forall k,
  skipn (S k) (update_slot k f l) = skipn (S k) l.
Proof.
  induction l as [| x rest IH]; intros [| k]; try reflexivity.
  cbn [update_slot]. change (skipn (S (S k)) (x :: update_slot k f rest))
    with (skipn (S k) (update_slot k f rest)).
  change (skipn (S (S k)) (x :: rest)) with (skipn (S k) rest). apply IH.
Qed.

Lemma update_slot_same f l : forall k s,
  nth_error l k = Some s -> f s = s -> update_slot k f l = l.
Proof.
  induction l as [| x rest IH]; intros [| k] s Hk Hf; try discriminate.
  - cbn in Hk. injection Hk as ->. cbn [update_slot]. rewrite Hf.
    reflexivity.
  - cbn [nth_error update_slot] in *. rewrite (IH k s Hk Hf). reflexivity.
Qed.

(** The descriptor just stored in slot [k] is found there when no earlier
    slot holds it. *)
Lemma find_slot_from_added v l : forall i k s,
  nth_error l k = Some s ->
  Forall (fun s => fd s <> fd v) (firstn k l) ->
  find_slot_from i (update_slot k (fun _ => v) l) (fd v) = i + Z.of_nat k.
Proof.
  induction l as [| x rest IH]; intros i [| k] s Hk Hbefore;
    try discriminate.
  - cbn [update_slot find_slot_from]. rewrite Z.eqb_refl. lia.
  - cbn [nth_error firstn] in *.
    inversion Hbefore as [| ? ? Hx Hrest]; subst.
    cbn [update_slot find_slot_from].
    destruct (Z.eqb_spec (fd x) (fd v)) as [E | _]; [contradiction |].
    rewrite (IH (i + 1) k s Hk Hrest). lia.
Qed.

(** X21: a handshake followed by the close frame of the same client
    undoes it.  For a descriptor other than 0 that no slot holds,
    [add_client] then [remove_client] leave the tracked clients and the
    count as they were, on a full table as on one with room, and the
    table consistent. *)
Theorem add_then_remove_restores fd0 now st :
  table_consistent st -> fd0 <> 0 -> find_client_slot fd0 st = -1 ->
  let st' := remove_client fd0 (add_client fd0 now st) in
  tracked st' = tracked st /\ client_count st' = client_count st /\
  table_consistent st'.
Proof.
  intros Hc Hfd Hnone. cbv zeta.
  assert (Htracked : tracked (remove_client fd0 (add_client fd0 now st))
                     = tracked st).
  { pose proof (add_client_effect fd0 now st Hc) as He.
    unfold add_client in *.
    destruct (first_free_from 0 (connected_clients st)) as [k |].
    - destruct He as (s & Hk & Hs & Hlt & Hcnt & Hnew & Hold).
      set (v := {| fd := fd0; connected := true; last_ping := now |}) in *.
      set (st1 := {| server := server st;
                     connected_clients :=
                       update_slot k (fun _ => v) (connected_clients st);
                     client_count := wrap32 (client_count st + 1) |}) in *.
      assert (Hall : Forall (fun s => fd s <> fd0) (connected_clients st)).
      { destruct (find_slot_from_spec (connected_clients st) 0 fd0)
          as [[_ H] | (k' & s' & H & _)]; [exact H |].
        unfold find_client_slot in Hnone. lia. }
      assert (Hfind : find_client_slot fd0 st1 = Z.of_nat k).
      { unfold find_client_slot, st1. cbn [connected_clients].
        change (find_slot_from 0
                  (update_slot k (fun _ => v) (connected_clients st)) (fd v)
                = Z.of_nat k).
        rewrite (find_slot_from_added v _ 0 k s Hk); [lia |].
        rewrite <- (firstn_skipn k (connected_clients st)) in Hall.
        apply Forall_app in Hall. exact (proj1 Hall). }
      assert (Hk1 : nth_error (connected_clients st1) k = Some v).
      { unfold st1. cbn [connected_clients].
        rewrite (nth_error_update_slot _ _ _ _ Hk). reflexivity. }
      destruct (remove_client_found fd0 st1 k v Hfind Hk1) as [_ Htr].
      rewrite Htr, Hold. unfold st1. cbn [connected_clients].
      rewrite firstn_update_slot, skipn_update_slot. reflexivity.
    - rewrite remove_client_missing by exact Hnone. reflexivity. }
  assert (Hc' : table_consistent (remove_client fd0 (add_client fd0 now st)))
    by (apply remove_client_consistent;
        [exact Hfd | apply add_client_consistent; exact Hc]).
  split; [exact Htracked |]. split; [| exact Hc'].
  destruct Hc' as (_ & Hcount' & _). destruct Hc as (_ & Hcount & _).
  rewrite Hcount', Hcount, Htracked. reflexivity.
Qed.

(** X21, witness: client 55 joins client 54 and leaves again. *)
Lemma add_then_remove_restores_witness :
  let st := add_client 54 10 initial_server in
  (table_consistent st /\ find_client_slot 55 st = -1) /\
  tracked (remove_client 55 (add_client 55 20 st)) = tracked st /\
  client_count (remove_client 55 (add_client 55 20 st)) = client_count st /\
  table_consistent (remove_client 55 (add_client 55 20 st)).
Proof.
  intros st.
  assert (Hc : table_consistent st)
    by (apply add_client_consistent; apply (initial_table_consistent false)).
  assert (Hnone : find_client_slot 55 st = -1) by reflexivity.
  assert (Hfd : 55 <> 0) by discriminate.
  split; [split; [exact Hc | exact Hnone] |].
  exact (add_then_remove_restores 55 20 st Hc Hfd Hnone).
Defined.

(** *** Descriptor 0 *)

(** X22: a close frame from descriptor 0 makes the count wrong.
    [find_client_slot] looks a descriptor up in every slot, connected or
    not, and a slot that is not connected holds 0.  So on a consistent
    table with a free slot and no client on descriptor 0,
    [remove_client(0)] finds a free slot: the table is left as it is, the
    count is decremented all the same, and the table is no longer
    consistent.  With one client tracked the count becomes 0, and the
    telemetry broadcast, which tests the count first, reaches nobody
    although the client is still connected. *)
Theorem remove_descriptor_zero_miscounts st :
  table_consistent st -> client_count st < Z.of_nat WS_MAX_CLIENTS ->
  Forall (fun s => fd s <> 0) (tracked st) ->
  let st' := remove_client 0 st in
  connected_clients st' = connected_clients st /\
  client_count st' = client_count st - 1 /\
  ~ table_consistent st' /\
  (client_count st = 1 ->
   websocket_server_broadcast_telemetry st' = [] /\
   length (tracked st') = 1%nat).
Proof.
  intros Hc Hlt Hnz. cbv zeta.
  pose proof Hc as (Hlen & Hcount & Hzero).
  pose proof (add_client_effect 0 0 st Hc) as He.
  destruct (first_free_from 0 (connected_clients st)) as [k0 |];
    [| destruct He as [_ Hfull]; lia].
  destruct He as (s0 & Hk0 & Hs0 & _).
  assert (Hfd0 : fd s0 = 0).
  { rewrite Forall_forall in Hzero.
    apply Hzero; [eapply nth_error_In; exact Hk0 | exact Hs0]. }
  destruct (find_slot_from_spec (connected_clients st) 0 0)
    as [[_ Hall] | (k & s & Hfind & Hk & Hs & _)].
  { exfalso. rewrite Forall_forall in Hall.
    apply (Hall s0); [eapply nth_error_In; exact Hk0 | exact Hfd0]. }
  assert (Hcon : connected s = false).
  { destruct (connected s) eqn:E; [| reflexivity]. exfalso.
    rewrite Forall_forall in Hnz. apply (Hnz s); [| exact Hs].
    unfold tracked. apply filter_In.
    split; [eapply nth_error_In; exact Hk | exact E]. }
  destruct (remove_client_found 0 st k s Hfind Hk) as [Est _].
  assert (Hsame : update_slot k
                    (fun s => {| fd := 0; connected := false;
                                 last_ping := last_ping s |})
                    (connected_clients st) = connected_clients st).
  { apply (update_slot_same _ _ k s Hk).
    destruct s as [f c p]. cbn in *. subst. reflexivity. }
  rewrite Hsame in Est.
  assert (Hcnt : client_count (remove_client 0 st) = client_count st - 1).
  { rewrite Est. cbn [client_count]. apply wrap32_small.
    unfold WS_MAX_CLIENTS in Hlt. lia. }
  assert (Htr : tracked (remove_client 0 st) = tracked st)
    by (rewrite Est; reflexivity).
  split; [rewrite Est; reflexivity |]. split; [exact Hcnt |]. split.
  - intros (_ & Hcount' & _). rewrite Hcnt, Htr in Hcount'. lia.
  - intros Hone. split.
    + unfold websocket_server_broadcast_telemetry.
      rewrite Hcnt, Hone. cbn [Z.sub Z.eqb Z.add Z.opp Z.pos_sub].
      rewrite orb_true_r. reflexivity.
    + rewrite Htr. lia.
Qed.

(** X22, witness: one client on descriptor 54, then a close frame from
    descriptor 0. *)
Lemma remove_descriptor_zero_miscounts_witness :
  let st := add_client 54 10 (websocket_server_start true initial_server) in
  (table_consistent st /\ client_count st < Z.of_nat WS_MAX_CLIENTS /\
   Forall (fun s => fd s <> 0) (tracked st) /\ client_count st = 1) /\
  websocket_server_broadcast_telemetry st = [54] /\
  websocket_server_broadcast_telemetry (remove_client 0 st) = [] /\
  length (tracked (remove_client 0 st)) = 1%nat.
Proof.
  intros st.
  assert (Hc : table_consistent st)
    by (apply add_client_consistent; apply (initial_table_consistent true)).
  assert (Hlt : client_count st < Z.of_nat WS_MAX_CLIENTS) by reflexivity.
  assert (Hnz : Forall (fun s => fd s <> 0) (tracked st))
    by (repeat constructor; discriminate).
  assert (Hone : client_count st = 1) by reflexivity.
  split; [split; [exact Hc | split; [exact Hlt | split; assumption]] |].
  split; [reflexivity |].
  exact (proj2 (proj2 (proj2
           (remove_descriptor_zero_miscounts st Hc Hlt Hnz))) Hone).
Defined.

End WebSocketFacts.

(** ** Connection retries of the WiFi manager, properties *)

Module WifiFacts.

Import CInt CIntFacts Wifi.
Local Open Scope Z_scope.

Lemma connects_app a b : connects (a ++ b) = connects a + connects b.
Proof.
  unfold connects. rewrite filter_app, length_app. lia.
Qed.

Lemma connects_notify st : connects (notify st) = 0.
Proof. unfold notify. destruct (callback_registered st); reflexivity. Qed.

(** One event: the budget is kept, and unless the event is the arrival of
    an address, the calls of [esp_wifi_connect] are one for a station
    start plus the increase of the retry counter. *)
Lemma wifi_event_handler_step ev st :
  within_budget st ->
  within_budget (fst (wifi_event_handler ev st)) /\
  sta_max_retry (fst (wifi_event_handler ev st)) = sta_max_retry st /\
  (is_got_ip ev = false ->
   connects (snd (wifi_event_handler ev st)) =
     (if is_sta_start ev then 1 else 0)
     + (retry_count (fst (wifi_event_handler ev st)) - retry_count st)).
Proof.
  intros [Hr Hmax]. unfold within_budget.
  destruct ev; cbn [wifi_event_handler is_got_ip is_sta_start];
    try destruct (Z.ltb_spec (retry_count st) (sta_max_retry st));
    cbn [fst snd with_status retry_count sta_max_retry];
    rewrite ?wrap32_small by lia;
    (split; [split; lia |]); (split; [reflexivity |]);
    try discriminate;
    intros _; unfold notify;
    cbn [callback_registered current_status with_status];
    destruct (callback_registered st); unfold connects;
    cbn [filter is_connect length]; lia.
Qed.

(** X23: reconnection attempts are bounded.  With the retry counter
    within its budget (0 <= [retry_count] <= [sta_max_retry]), any
    sequence of WiFi and IP events keeps it there.  In a sequence during
    which no address is obtained, [esp_wifi_connect] is called once for
    each station start plus once for each increase of the retry counter,
    hence at most [sta_max_retry - retry_count] times in answer to
    disconnections, however many of them there are; once the budget is
    used up, a disconnection sets the status to the error status and
    calls [esp_wifi_connect] no more. *)
Theorem wifi_retries_within_budget evs st :
  within_budget st ->
  let st' := fst (wifi_run evs st) in
  let actions := snd (wifi_run evs st) in
  within_budget st' /\ sta_max_retry st' = sta_max_retry st /\
  (forallb (fun ev => negb (is_got_ip ev)) evs = true ->
   connects actions =
     Z.of_nat (length (filter is_sta_start evs))
     + (retry_count st' - retry_count st) /\
   connects actions <=
     Z.of_nat (length (filter is_sta_start evs))
     + (sta_max_retry st - retry_count st)) /\
  (retry_count st' = sta_max_retry st' ->
   current_status (fst (wifi_event_handler WIFI_EVENT_STA_DISCONNECTED st'))
     = WIFI_STATUS_ERROR /\
   connects (snd (wifi_event_handler WIFI_EVENT_STA_DISCONNECTED st')) = 0).
Proof.
  cbv zeta. revert st.
  assert (Hrun : forall st, within_budget st ->
            within_budget (fst (wifi_run evs st)) /\
            sta_max_retry (fst (wifi_run evs st)) = sta_max_retry st /\
            (forallb (fun ev => negb (is_got_ip ev)) evs = true ->
             connects (snd (wifi_run evs st)) =
               Z.of_nat (length (filter is_sta_start evs))
               + (retry_count (fst (wifi_run evs st)) - retry_count st))).
  { induction evs as [| ev rest IH]; intros st Hst.
    - cbn [wifi_run fst snd]. split; [exact Hst |]. split; [reflexivity |].
      intros _. unfold connects. cbn. lia.
    - cbn [wifi_run].
      destruct (wifi_event_handler_step ev st Hst) as (H1 & M1 & C1).
      destruct (wifi_event_handler ev st) as [st1 a1]. cbn [fst snd] in *.
      destruct (IH st1 H1) as (H2 & M2 & C2).
      destruct (wifi_run rest st1) as [st2 a2]. cbn [fst snd] in *.
      split; [exact H2 |]. split; [congruence |].
      intros Hall. cbn [forallb] in Hall.
      apply andb_true_iff in Hall. destruct Hall as [Hev Hrest].
      apply negb_true_iff in Hev.
      rewrite connects_app, (C1 Hev), (C2 Hrest). cbn [filter].
      destruct (is_sta_start ev); cbn [length]; lia. }
  intros st Hst. destruct (Hrun st Hst) as (H1 & M1 & C1).
  split; [exact H1 |]. split; [exact M1 |]. split.
  - intros Hall. split; [exact (C1 Hall) |].
    rewrite (C1 Hall). destruct H1 as [Hr _]. lia.
  - intros Hused. cbn [wifi_event_handler].
    destruct (Z.ltb_spec (retry_count (fst (wifi_run evs st)))
                (sta_max_retry (fst (wifi_run evs st)))) as [Hlt | _];
      [lia |].
    cbn [fst snd with_status current_status].
    split; [reflexivity | apply connects_notify].
Qed.

(** X23, witness: a station start and seven disconnections with a budget
    of five retries give six calls of [esp_wifi_connect] and end in the
    error status. *)
Lemma wifi_retries_within_budget_witness :
  let st := {| current_status := WIFI_STATUS_CONNECTING; retry_count := 0;
               sta_max_retry := 5; callback_registered := true |} in
  let evs := WIFI_EVENT_STA_START :: repeat WIFI_EVENT_STA_DISCONNECTED 7 in
  (within_budget st /\
   forallb (fun ev => negb (is_got_ip ev)) evs = true) /\
  connects (snd (wifi_run evs st)) = 6 /\
  current_status (fst (wifi_run evs st)) = WIFI_STATUS_ERROR /\
  connects (snd (wifi_run evs st)) <=
    Z.of_nat (length (filter is_sta_start evs))
    + (sta_max_retry st - retry_count st).
Proof.
  intros st evs.
  assert (H : within_budget st) by (unfold within_budget; cbn; lia).
  assert (Hall : forallb (fun ev => negb (is_got_ip ev)) evs = true)
    by reflexivity.
  split; [split; [exact H | exact Hall] |].
  split; [reflexivity |]. split; [reflexivity |].
  exact (proj2 (proj1 (proj2 (proj2 (wifi_retries_within_budget evs st H)))
                  Hall)).
Defined.

End WifiFacts.

(** ** The Drive Mapper: modes *)

Module FuzzyModes.

Import CInt CFloat CIntFacts CFloatFacts Fuzzy FuzzyFacts.
Local Open Scope R_scope.

(** The mapper reads a configuration through its fields and through
    [process_mode] only. *)
Lemma fuzzy_control_process_ext c1 c2 angle magnitude :
  dead_zone c1 = dead_zone c2 -> curve c1 = curve c2 ->
  min_duty c1 = min_duty c2 ->
  invert_left c1 = invert_left c2 -> invert_right c1 = invert_right c2 ->
  (forall a m, process_mode a m c1 = process_mode a m c2) ->
  fuzzy_control_process c1 angle magnitude =
    fuzzy_control_process c2 angle magnitude.
Proof.
  intros Hdz Hcurve Hmin Hl Hr Hmode.
  unfold fuzzy_control_process, process_rescaled.
  rewrite Hdz, Hcurve, Hmin, Hl, Hr.
  destruct (apply_dead_zone magnitude (dead_zone c2)) as [m |];
    [| reflexivity].
  cbn [bind]. destruct (Req_dec_T m 0); [reflexivity |].
  destruct (apply_curve m (curve c2)) as [m' |]; [| reflexivity].
  cbn [bind]. destruct (normalize_angle angle) as [theta |]; [| reflexivity].
  cbn [bind]. rewrite Hmode. reflexivity.
Qed.

(** X24: Tank and Smooth are Arcade with another turn factor.  For every
    configuration and input the mapper gives in Tank mode what it gives in
    Arcade mode with a turn factor of 1, and in Smooth mode what it gives in
    Arcade mode with 0.7 times the turn factor; in Tank mode the turn
    factor of the configuration has no effect at all. *)
Theorem tank_and_smooth_are_arcade c angle magnitude :
  fuzzy_control_process (set_mode FUZZY_MODE_TANK c) angle magnitude =
    fuzzy_control_process
      (set_turn_factor 1 (set_mode FUZZY_MODE_ARCADE c)) angle magnitude /\
  fuzzy_control_process (set_mode FUZZY_MODE_SMOOTH c) angle magnitude =
    fuzzy_control_process
      (set_turn_factor (turn_factor c * 0.7) (set_mode FUZZY_MODE_ARCADE c))
      angle magnitude /\
  (forall tf,
     fuzzy_control_process
       (set_turn_factor tf (set_mode FUZZY_MODE_TANK c)) angle magnitude =
     fuzzy_control_process (set_mode FUZZY_MODE_TANK c) angle magnitude).
Proof.
  split; [| split; [| intros tf]];
    apply fuzzy_control_process_ext; try reflexivity; intros a m;
    unfold process_mode;
    cbn [mode set_mode set_turn_factor];
    unfold process_tank_mode, process_arcade_mode, process_smooth_mode,
      to_duties;
    cbn [turn_factor max_duty set_mode set_turn_factor];
    rewrite ?Rmult_1_r; reflexivity.
Qed.

End FuzzyModes.
